(** * discord-ext-slash: the callback model and its resolution engine

    A shallow embedding of [src/discord/ext/slash/command.py] and of
    [src/discord/ext/slash/components.py], with the properties the
    specification states about them and further properties of the code.

    Conventions.  [None] of Python is [None] of [option]; an exception is a
    value of [exn] carried by [Raise]; Python objects that the code mutates
    or compares by identity (options, component callbacks) live in a store
    and are named by their address; the coroutines the bot's author writes
    (handlers, checks, matchers) are not part of the library and are a
    parameter of the development. *)

From Stdlib Require Import ZArith Lia.
From stdpp Require Import base option list strings gmap.

Local Open Scope Z_scope.
Local Open Scope string_scope.
Local Open Scope list_scope.

(** ** Python values and exceptions *)

(** The values a user coroutine hands back to the engine, as far as the
    engine tells them apart. *)
Inductive pyval : Type :=
| PyNone
| PyBool (b : bool)
| PyInt (n : Z)
| PyStr (s : string).

#[global] Instance pyval_eq_dec : EqDecision pyval.
Proof. solve_decision. Defined.

(** [v is False]: identity with the singleton [False], not falsiness. *)
Definition is_False (v : pyval) : bool :=
  match v with
  | PyBool false => true
  | _ => false
  end.

(** The exceptions the library raises; [UserError] stands for whatever a
    user coroutine raises. *)
Inductive exn : Type :=
| TypeError (msg : string)
| ValueError (msg : string)
| CheckFailure (msg : string)
| UserError (tag : nat).

#[global] Instance exn_eq_dec : EqDecision exn.
Proof. solve_decision. Defined.

Inductive result (A : Type) : Type :=
| Ok (a : A)
| Raise (e : exn).
Arguments Ok {A} a.
Arguments Raise {A} e.

(** Truthiness of an [Optional[str]]: [None] and the empty string are falsy. *)
Definition truthy (s : option string) : bool :=
  match s with
  | None => false
  | Some s => negb (String.eqb s "")
  end.

Definition is_None {A} (x : option A) : bool :=
  match x with
  | None => true
  | Some _ => false
  end.

(** ** components.py: [Button] *)

(** Modelled from the spec: [simples.py] is not among the sources; the
    docstring of [Button] gives the members, four colours and one link
    style. *)
Inductive ButtonStyle : Type := PRIMARY | SECONDARY | SUCCESS | DANGER | LINK.

#[global] Instance ButtonStyle_eq_dec : EqDecision ButtonStyle.
Proof. solve_decision. Defined.

(** [discord.PartialEmoji], of which only the name matters here. *)
Record PartialEmoji : Type := { emoji_name : string }.

(** The [emoji] argument: a [str] (a unicode emoji) or a [PartialEmoji]. *)
Inductive emoji_arg : Type :=
| EmojiStr (s : string)
| EmojiObj (e : PartialEmoji).

Record Button : Type := {
  btn_style : ButtonStyle;
  btn_label : option string;
  btn_emoji : option PartialEmoji;
  btn_custom_id : option string;
  btn_url : option string;
  btn_disabled : bool
}.

(** [Button.__init__] *)
Definition Button_init (style : ButtonStyle) (label : option string)
    (emoji : option emoji_arg) (custom_id url : option string)
    (disabled : bool) : result Button :=
  let checked : result unit :=
    if decide (style = LINK) then
      if negb (is_None custom_id) then
        Raise (TypeError "custom_id not allowed on LINK-style Buttons")
      else if negb (truthy url) then
        Raise (TypeError "LINK-style Buttons must have a url")
      else Ok tt
    else
      if negb (truthy custom_id) then
        Raise (TypeError "Non-LINK Buttons must have a custom_id")
      else if negb (is_None url) then
        Raise (TypeError "url not allowed on non-LINK Buttons")
      else Ok tt in
  match checked with
  | Raise e => Raise e
  | Ok _ =>
    if is_None label && is_None emoji then
      Raise (TypeError "Button must have at least one of label or emoji")
    else
      let emoji :=
        match emoji with
        | Some (EmojiStr s) => Some {| emoji_name := s |}
        | Some (EmojiObj e) => Some e
        | None => None
        end in
      Ok {| btn_style := style; btn_label := label; btn_emoji := emoji;
            btn_custom_id := custom_id; btn_url := url;
            btn_disabled := disabled |}
  end.

(** The condition of the specification, word for word: an argument is
    absent when it is [None] and supplied otherwise. *)
Definition Button_raises_spec (style : ButtonStyle) (label : option string)
    (emoji : option emoji_arg) (custom_id url : option string) : bool :=
  (bool_decide (style = LINK) && (negb (is_None custom_id) || is_None url))
  || (negb (bool_decide (style = LINK)) && (is_None custom_id || negb (is_None url)))
  || (is_None label && is_None emoji).

(** What the constructor tests: the required argument must be truthy (a
    non-empty string), the forbidden one must be [None]. *)
Definition Button_raises (style : ButtonStyle) (label : option string)
    (emoji : option emoji_arg) (custom_id url : option string) : bool :=
  (bool_decide (style = LINK) && (negb (is_None custom_id) || negb (truthy url)))
  || (negb (bool_decide (style = LINK)) && (negb (truthy custom_id) || negb (is_None url)))
  || (is_None label && is_None emoji).

Definition is_TypeError {A} (r : result A) : bool :=
  match r with
  | Raise (TypeError _) => true
  | _ => false
  end.

Definition is_Ok {A} (r : result A) : bool :=
  match r with
  | Ok _ => true
  | Raise _ => false
  end.

(** ** Python dictionaries

    A [dict] keeps its keys in insertion order, and assigning to a key
    that is present replaces the value where it stands. *)

Section PyDict.
Context {K V : Type} `{EqDecision K}.

Definition pydict : Type := list (K * V).

Fixpoint dict_get (k : K) (d : pydict) : option V :=
  match d with
  | [] => None
  | (k', v) :: d' => if decide (k = k') then Some v else dict_get k d'
  end.

(** [d[k] = v] *)
Fixpoint dict_set (k : K) (v : V) (d : pydict) : pydict :=
  match d with
  | [] => [(k, v)]
  | (k', v') :: d' =>
    if decide (k = k') then (k', v) :: d' else (k', v') :: dict_set k v d'
  end.

(** [d.update(items)] *)
Definition dict_update (d : pydict) (items : list (K * V)) : pydict :=
  foldl (fun acc kv => dict_set kv.1 kv.2 acc) d items.

(** The keys of a dictionary are pairwise distinct. *)
Definition dict_wf (d : pydict) : Prop := NoDup d.*1.

End PyDict.
Arguments pydict : clear implicits.

(** ** Functions, cogs and contexts *)

(** A function object is known by its identity. *)
Definition fn : Type := nat.

(** A cog: an instance whose class may define [cog_check]
    ([hasattr(cog, 'cog_check')] is [cog_check <> None]). *)
Record Cog : Type := {
  cog_id : nat;
  cog_check : option fn
}.

#[global] Instance Cog_eq_dec : EqDecision Cog.
Proof. solve_decision. Defined.

(** The callables the engine builds and calls. *)
Inductive callable : Type :=
| Function (f : fn)                    (* a function of the user *)
| DefaultCheck                         (* [_default_check] of [BaseCallback.__init__] *)
| AsyncCheck (f : fn)                  (* [_async_check] of [BaseCallback.check], around [f] *)
| Partial (c : callable) (cog : Cog)   (* [functools.partial(c, cog)] *)
| Method (cog : Cog) (f : fn).         (* the bound method [cog.cog_check] *)

#[global] Instance callable_eq_dec : EqDecision callable.
Proof. solve_decision. Defined.

(** [Context]: the engine reads [ctx.client._checks] and [ctx.options]. *)
Record Context : Type := {
  ctx_client_checks : list fn;
  ctx_options : list (string * pyval)
}.

#[global] Instance Context_eq_dec : EqDecision Context.
Proof. solve_decision. Defined.

(** [ComponentContext]: the engine reads [ctx.custom_id] and [ctx.values];
    [ctx.bot] is the bot of the world below. *)
Record ComponentContext : Type := {
  ctx_custom_id : string;
  ctx_values : list pyval
}.

#[global] Instance ComponentContext_eq_dec : EqDecision ComponentContext.
Proof. solve_decision. Defined.

Inductive pyarg : Type :=
| ArgCog (c : Cog)
| ArgContext (ctx : Context)
| ArgComponentContext (ctx : ComponentContext)
| ArgValue (v : pyval).

#[global] Instance pyarg_eq_dec : EqDecision pyarg.
Proof. solve_decision. Defined.

(** What the engine does that the outside can see: it calls (and awaits) a
    callable with positional and keyword arguments, and it asks the bot to
    dispatch an event about a component callback. *)
Inductive event : Type :=
| Called (c : callable) (args : list pyarg) (kwargs : list (string * pyval))
| Dispatched (name : string) (callback : nat).

#[global] Instance event_eq_dec : EqDecision event.
Proof. solve_decision. Defined.

(** The outcome of awaiting a call. *)
Inductive outcome : Type :=
| Returns (v : pyval)
| Throws (e : exn).

#[global] Instance outcome_eq_dec : EqDecision outcome.
Proof. solve_decision. Defined.

(** ** Options (option.py) and the signature of a handler *)

(** Modelled from the spec: [option.py] is not among the sources; an
    OptionSchema is [{name, description, type, required, choices}], the name
    being unset ([None]) until given or inferred. *)
Record Option : Type := {
  opt_name : option string;
  opt_description : string;
  opt_type : Z;
  opt_required : bool;
  opt_choices : list (string * pyval)
}.

#[global] Instance Option_eq_dec : EqDecision Option.
Proof. solve_decision. Defined.

#[global] Instance Option_inhabited : Inhabited Option :=
  populate {| opt_name := None; opt_description := ""; opt_type := 0;
              opt_required := false; opt_choices := [] |}.

(** The store of [Option] objects: an object is its index. *)
Abbreviation heap := (list Option).

Definition alloc (o : Option) (h : heap) : nat * heap := (length h, h ++ [o]).

(** Modelled from the spec: [Option.clone] is not among the sources;
    [clone()] produces an independent copy, a new object with the fields
    of the old one. *)
Definition Option_clone (a : nat) (h : heap) : nat * heap := alloc (h !!! a) h.

(** [opt.required = b] and [opt.name = n] on the object at [a]. *)
Definition set_required (a : nat) (b : bool) (h : heap) : heap :=
  let o := h !!! a in
  <[a := {| opt_name := opt_name o; opt_description := opt_description o;
            opt_type := opt_type o; opt_required := b;
            opt_choices := opt_choices o |}]> h.

Definition set_name (a : nat) (n : option string) (h : heap) : heap :=
  let o := h !!! a in
  <[a := {| opt_name := n; opt_description := opt_description o;
            opt_type := opt_type o; opt_required := opt_required o;
            opt_choices := opt_choices o |}]> h.

(** A class, as far as [issubclass] against [Context] and [ChoiceEnum]
    tells. *)
Record pyclass : Type := {
  cls_id : nat;
  sub_Context : bool;
  sub_ChoiceEnum : bool
}.

#[global] Instance pyclass_eq_dec : EqDecision pyclass.
Proof. solve_decision. Defined.

(** What an annotation is once evaluated. *)
Inductive pyobj : Type :=
| ObjEmpty                 (* [inspect.Parameter.empty], itself a class *)
| ObjOption (a : nat)      (* an instance of [Option] *)
| ObjClass (c : pyclass)   (* any other class *)
| ObjOther.                (* an object that is neither *)

#[global] Instance pyobj_eq_dec : EqDecision pyobj.
Proof. solve_decision. Defined.

(** An annotation as [inspect.signature] gives it: an object, or the text
    of a postponed annotation. *)
Inductive annotation : Type :=
| AnnObj (o : pyobj)
| AnnStr (s : string).

(** An [inspect.Parameter]; [param.default is param.empty] is
    [param_default = None]. *)
Record param : Type := {
  param_name : string;
  param_annotation : annotation;
  param_default : option pyval
}.

(** A function object with what [Command.__init__] reads of it.
    [fn_globals] stands for [eval(text, sys.modules[coro.__module__].__dict__)]:
    it maps the text of an annotation to its value, and a text it does not
    hold is one whose evaluation raises. *)
Record pyfunction : Type := {
  fn_id : fn;
  fn_name : string;                 (* [__name__] *)
  fn_doc : option string;           (* [__doc__] *)
  fn_iscoroutinefunction : bool;
  fn_parameters : list param;     (* [signature(coro).parameters.values()] *)
  fn_globals : gmap string pyobj
}.

(** ** command.py: [Command] *)

(** Modelled from the spec: [simples.py] is not among the sources; a
    permission override targets a role or a user. *)
Inductive ApplicationCommandPermissionType : Type := ROLE | USER.

#[global] Instance ApplicationCommandPermissionType_eq_dec :
  EqDecision ApplicationCommandPermissionType.
Proof. solve_decision. Defined.

(** [CommandPermissionsDict] *)
Definition CommandPermissionsDict : Type :=
  pydict (option Z) (pydict (Z * ApplicationCommandPermissionType) bool).

(** A [Command] (a [Group] is one too: the engine reads of a parent only
    what every command has).  [cmd_parent] is the back-reference
    [self.parent]; the chain of parents is finite. *)
#[warnings="-register-all"]
Inductive Command : Type := mkCommand {
  cmd_coro : fn;
  cmd_check : callable;                      (* [self._check] *)
  cmd_cog : option Cog;
  cmd_id : option Z;
  cmd_name : string;
  cmd_description : option string;
  cmd_guild_id : option Z;
  cmd_parent : option Command;
  cmd_default_permission : bool;
  cmd_permissions : CommandPermissionsDict;
  cmd_ctx_arg : option (string * pyclass);   (* [self._ctx_arg] *)
  cmd_options : pydict string nat
}.

(** The keyword arguments of [Command.__init__]; [None] is a key that is
    not given. *)
Record kwargs : Type := {
  kw_check : option pyfunction;
  kw_name : option string;
  kw_description : option (option string);
  kw_guild_id : option (option Z);
  kw_guild : option (option Z);
  kw_parent : option (option Command);
  kw_default_permission : option bool
}.

(** [BaseCallback.check], the value it stores in [self._check]. *)
Definition BaseCallback_check (coro : pyfunction) : callable :=
  if fn_iscoroutinefunction coro then Function (fn_id coro)
  else AsyncCheck (fn_id coro).

(** [BaseCallback.__init__]: [self.check(check or _default_check)], where
    [_default_check] is a coroutine function. *)
Definition BaseCallback_init (check : option pyfunction) : callable :=
  match check with
  | Some coro => BaseCallback_check coro
  | None => DefaultCheck
  end.

(** [kwargs.pop(key, default)] *)
Definition pop {A} (given : option A) (default : A) : A :=
  match given with
  | Some a => a
  | None => default
  end.

(** The evaluated annotation of a parameter (lines 160-167). *)
Definition annotation_of (coro : pyfunction) (p : param) : pyobj :=
  match param_annotation p with
  | AnnObj o => o
  | AnnStr s =>
    match fn_globals coro !! s with
    | Some o => o
    | None => ObjEmpty
    end
  end.

(** [isinstance(typ, Option) or (isinstance(typ, type) and
    (issubclass(typ, ChoiceEnum) or issubclass(typ, Context)))] *)
Definition valid_annotation (typ : pyobj) : bool :=
  match typ with
  | ObjOption _ => true
  | ObjClass c => sub_ChoiceEnum c || sub_Context c
  | ObjEmpty => false
  | ObjOther => false
  end.

(** A required parameter with no valid annotation. *)
Definition unannotated_required (coro : pyfunction) (p : param) : bool :=
  negb (valid_annotation (annotation_of coro p)) && is_None (param_default p).

(** The locals of the loop of [Command.__init__]. *)
Record init_state : Type := {
  st_ctx_arg : option (string * pyclass);
  st_options : pydict string nat;
  st_found_self_arg : bool
}.

(** [self.parent.qualname + ' ' + self.name], or [self.name] at the root. *)
Fixpoint Command_qualname (self : Command) : string :=
  match cmd_parent self with
  | None => cmd_name self
  | Some p => Command_qualname p +:+ " " +:+ cmd_name self
  end.

(** The parents of a command, the nearest first and the root last: the
    values [parent] takes in [while parent is not None]. *)
Fixpoint ancestors (self : Command) : list Command :=
  match cmd_parent self with
  | None => []
  | Some p => p :: ancestors p
  end.

(** A target of a permission override: a [discord.Role], a
    [discord.Member], a guildless [discord.User], or a bare
    [discord.Object]. *)
Inductive target : Type :=
| TRole (id guild : Z)
| TMember (id guild : Z)
| TUser (id : Z)
| TObject (id : Z).

Definition target_id (t : target) : Z :=
  match t with
  | TRole i _ | TMember i _ | TUser i | TObject i => i
  end.

(** One entry of the list [perms_dict] builds, and its result. *)
Record perm_entry : Type := {
  pe_id : Z;
  pe_type : Z;
  pe_permission : bool
}.

Record perms_record : Type := {
  pr_id : option Z;
  pr_permissions : list perm_entry
}.

(** The permission the record [r] holds for the target [oid] of the type
    whose wire value is [ty]. *)
Definition perm_lookup (r : perms_record) (oid ty : Z) : option bool :=
  pe_permission <$>
    head (filter (fun e => pe_id e = oid ∧ pe_type e = ty) (pr_permissions r)).

Section Engine.

(** [repr] of a [str], as [{self.name!r}] formats it. *)
Variable repr : string -> string.

(** [Option(description=typ)] for a [ChoiceEnum] subclass [typ]: the
    constructor is in option.py, which is not among the sources. *)
Variable Option_of_ChoiceEnum : pyclass -> Option.

(** [type.value] of a permission type: the enumeration is in simples.py,
    which is not among the sources. *)
Variable value : ApplicationCommandPermissionType -> Z.

(** *** [Command.__init__] *)

(** One turn of [for param in signature(coro).parameters.values()]
    (lines 159-195); [name] is [self.name]. *)
Definition init_param (name : string) (coro : pyfunction) (p : param)
    (st : init_state) (h : heap) : result init_state * heap :=
  let typ := annotation_of coro p in
  if negb (valid_annotation typ) && is_None (param_default p) then
    if negb (st_found_self_arg st) then
      (Ok {| st_ctx_arg := st_ctx_arg st; st_options := st_options st;
             st_found_self_arg := true |}, h)
    else
      (Raise (TypeError ("Command " +:+ repr name +:+
         " cannot have a required argument with no valid annotation")), h)
  else
    (* try: ... except TypeError: pass *)
    let '(ctx_arg, typ, h) :=
      match typ with
      | ObjClass c =>
        if sub_Context c then (Some (param_name p, c), typ, h)
        else if sub_ChoiceEnum c then
          let '(a, h) := alloc (Option_of_ChoiceEnum c) h in
          (st_ctx_arg st, ObjOption a, h)
        else (st_ctx_arg st, typ, h)
      | ObjEmpty => (st_ctx_arg st, typ, h)
      | ObjOption _ | ObjOther => (st_ctx_arg st, typ, h)
      end in
    match typ with
    | ObjOption a =>
      let '(a, h) := Option_clone a h in
      let h := if is_None (param_default p) then set_required a true h else h in
      let options := dict_set (param_name p) a (st_options st) in
      let h :=
        if is_None (opt_name (h !!! a)) then set_name a (Some (param_name p)) h
        else h in
      (Ok {| st_ctx_arg := ctx_arg; st_options := options;
             st_found_self_arg := st_found_self_arg st |}, h)
    | _ =>
      (Ok {| st_ctx_arg := ctx_arg; st_options := st_options st;
             st_found_self_arg := st_found_self_arg st |}, h)
    end.

Fixpoint init_params (name : string) (coro : pyfunction) (ps : list param)
    (st : init_state) (h : heap) : result init_state * heap :=
  match ps with
  | [] => (Ok st, h)
  | p :: ps' =>
    match init_param name coro p st h with
    | (Ok st', h') => init_params name coro ps' st' h'
    | (Raise e, h') => (Raise e, h')
    end
  end.

(** [Command.__init__]; a guild id is an integer already, so that
    [int(self.guild_id)] is [self.guild_id]. *)
Definition Command_init (coro : pyfunction) (kw : kwargs) (h : heap)
    : result Command * heap :=
  let check := BaseCallback_init (kw_check kw) in
  let name := pop (kw_name kw) (fn_name coro) in
  let description := pop (kw_description kw) (fn_doc coro) in
  if negb (truthy description) then
    (Raise (ValueError ("Please specify a description for " +:+ repr name)), h)
  else
    let guild_id := pop (kw_guild_id kw) (pop (kw_guild kw) None) in
    let parent := pop (kw_parent kw) None in
    let default_permission := pop (kw_default_permission kw) true in
    let st0 := {| st_ctx_arg := None; st_options := [];
                  st_found_self_arg := false |} in
    match init_params name coro (fn_parameters coro) st0 h with
    | (Raise e, h') => (Raise e, h')
    | (Ok st, h') =>
      match st_ctx_arg st with
      | None =>
        (Raise (ValueError "One argument must be type-hinted slash.Context"), h')
      | Some _ =>
        (Ok {| cmd_coro := fn_id coro; cmd_check := check; cmd_cog := None;
               cmd_id := None; cmd_name := name;
               cmd_description := description; cmd_guild_id := guild_id;
               cmd_parent := parent;
               cmd_default_permission := default_permission;
               cmd_permissions := []; cmd_ctx_arg := st_ctx_arg st;
               cmd_options := st_options st |}, h')
      end
    end.

(** *** [Command.perms_dict] and [Command.add_perm] *)

(** The entry [perms_dict] appends for the item [(oid, type), perm]. *)
Definition entry_of (kv : Z * ApplicationCommandPermissionType * bool)
    : perm_entry :=
  {| pe_id := kv.1.1; pe_type := value kv.1.2; pe_permission := kv.2 |}.

Definition Command_perms_dict (self : Command) (guild_id : option Z)
    : perms_record :=
  let final := default [] (dict_get None (cmd_permissions self)) in
  let final :=
    dict_update final (default [] (dict_get guild_id (cmd_permissions self))) in
  {| pr_id := cmd_id self; pr_permissions := map entry_of final |}.

(** [guild_id] is [None] for the default [...], and [Some g] for the
    argument [g], itself [None] or a guild. *)
Definition Command_add_perm (self : Command) (t : target) (perm : bool)
    (guild_id : option (option Z))
    (type : option ApplicationCommandPermissionType) : result Command :=
  let type : result ApplicationCommandPermissionType :=
    match type with
    | Some ty => Ok ty
    | None =>
      match t with
      | TRole _ _ => Ok ROLE
      | TMember _ _ | TUser _ => Ok USER
      | TObject _ =>
        Raise (ValueError "Must specify type if target is not a discord.py model")
      end
    end in
  match type with
  | Raise e => Raise e
  | Ok type =>
    let guild_id : result (option Z) :=
      match guild_id with
      | Some g => Ok g
      | None =>
        match t with
        | TRole _ g | TMember _ g => Ok (Some g)
        | TUser _ | TObject _ =>
          Raise (ValueError "Must specify guild_id if target is not a guilded object")
        end
      end in
    match guild_id with
    | Raise e => Raise e
    | Ok guild_id =>
      let inner := default [] (dict_get guild_id (cmd_permissions self)) in
      let permissions :=
        dict_set guild_id (dict_set (target_id t, type) perm inner)
          (cmd_permissions self) in
      Ok {| cmd_coro := cmd_coro self; cmd_check := cmd_check self;
            cmd_cog := cmd_cog self; cmd_id := cmd_id self;
            cmd_name := cmd_name self;
            cmd_description := cmd_description self;
            cmd_guild_id := cmd_guild_id self; cmd_parent := cmd_parent self;
            cmd_default_permission := cmd_default_permission self;
            cmd_permissions := permissions; cmd_ctx_arg := cmd_ctx_arg self;
            cmd_options := cmd_options self |}
    end
  end.

(** *** The world of an invocation *)

(** How a component callback decides whether an event is for it
    (lines 461-474). *)
Inductive matcher : Type :=
| MatchCoro (f : fn)                    (* the coroutine function given *)
| MatchComp (custom_id : option string) (* [match_comp], around a component *)
| MatchId (s : string)                  (* [match_id], around a string *)
| MatchCall (f : fn).                   (* [match], around a plain callable *)

#[global] Instance matcher_eq_dec : EqDecision matcher.
Proof. solve_decision. Defined.

Record ComponentCallback : Type := {
  cb_coro : fn;
  cb_check : callable;          (* [self._check] *)
  cb_cog : option Cog;
  cb_matcher : matcher;
  cb_max_uses : option Z
}.

#[global] Instance ComponentCallback_inhabited : Inhabited ComponentCallback :=
  populate {| cb_coro := 0%nat; cb_check := DefaultCheck; cb_cog := None;
              cb_matcher := MatchId ""; cb_max_uses := None |}.

(** The state an invocation runs in: what the engine did so far, the
    component callbacks (an object is its index) and the members of the
    set [bot.comp_callbacks]. *)
Record world : Type := {
  trace : list event;
  callbacks : list ComponentCallback;
  comp_callbacks : list nat
}.

Definition emit (e : event) (w : world) : world :=
  {| trace := trace w ++ [e]; callbacks := callbacks w;
     comp_callbacks := comp_callbacks w |}.

Definition emits (es : list event) (w : world) : world :=
  {| trace := trace w ++ es; callbacks := callbacks w;
     comp_callbacks := comp_callbacks w |}.

(** The state and exception monad of the engine. *)
Definition M (A : Type) : Type := world -> result A * world.

Definition ret {A} (a : A) : M A := fun w => (Ok a, w).

Definition raise {A} (e : exn) : M A := fun w => (Raise e, w).

Definition bind {A B} (m : M A) (k : A -> M B) : M B :=
  fun w =>
    match m w with
    | (Ok a, w') => k a w'
    | (Raise e, w') => (Raise e, w')
    end.

Notation "x <- m ;; k" := (bind m (fun x => k))
  (at level 100, m at next level, right associativity).
Notation "m ;;; k" := (bind m (fun _ => k))
  (at level 100, right associativity).

(** The user's coroutines: what awaiting the function [f] on the given
    arguments yields, in a world that holds all that happened before. *)
Variable user : world -> fn -> list pyarg -> list (string * pyval) -> outcome.

(** [repr] of a component callback, for [{self!r}]. *)
Variable repr_callback : nat -> string.

(** The outcome of awaiting a call of [c] on positional and keyword
    arguments.  The two closures of [BaseCallback] take exactly one
    positional argument; called otherwise they raise a [TypeError], of
    whose message only the head is kept here: the interpreter goes on
    with the number of arguments given, and names the closure by its
    qualified name, which for [_async_check] is that of the function it
    wraps. *)
Fixpoint apply (w : world) (c : callable) (args : list pyarg)
    (kw : list (string * pyval)) : outcome :=
  match c with
  | Function f => user w f args kw
  | DefaultCheck =>
    match args, kw with
    | [_], [] => Returns (PyBool true)
    | _, _ => Throws (TypeError "_default_check() takes 1 positional argument")
    end
  | AsyncCheck f =>
    match args, kw with
    | [ctx], [] => user w f [ctx] []
    | _, _ => Throws (TypeError "_async_check() takes 1 positional argument")
    end
  | Partial c' cog => apply w c' (ArgCog cog :: args) kw
  | Method cog f => user w f (ArgCog cog :: args) kw
  end.

(** [await] of a call of [c], which the trace records. *)
Definition call (c : callable) (args : list pyarg)
    (kw : list (string * pyval)) : M pyval :=
  fun w =>
    match apply w c args kw with
    | Returns v => (Ok v, emit (Called c args kw) w)
    | Throws e => (Raise e, emit (Called c args kw) w)
    end.

(** *** [Command.can_run] *)

(** The loop [while parent is not None] (lines 314-322), entered with
    [parent] bound to a command; it yields [parents] and [cogs]. *)
Fixpoint can_run_walk (parent : Command) (parents cogs : list callable)
    : list callable * list callable :=
  let '(parents, cogs) :=
    match cmd_cog parent with
    | Some cog =>
      let cogs :=
        match cog_check cog with
        | Some f =>
          if bool_decide (Method cog f ∈ cogs) then cogs
          else cogs ++ [Method cog f]
        | None => cogs
        end in
      (parents ++ [Partial (cmd_check parent) cog], cogs)
    | None => (parents ++ [cmd_check parent], cogs)
    end in
  match cmd_parent parent with
  | None => (parents, cogs)
  | Some p => can_run_walk p parents cogs
  end.

(** The list [parents] as the loop [for check in parents] finds it
    (lines 311-326). *)
Definition can_run_checks (self : Command) (ctx : Context) : list callable :=
  let '(parents, cogs) :=
    match cmd_parent self with
    | None => ([], [])
    | Some p => can_run_walk p [] []
    end in
  let parents := parents ++ cogs in
  let parents := parents ++ map Function (ctx_client_checks ctx) in
  let parents := rev parents in
  parents ++ [cmd_check self].

(** [for check in parents: if await check(ctx) is False: return False] *)
Fixpoint run_checks (checks : list callable) (ctx : Context) : M bool :=
  match checks with
  | [] => ret true
  | check :: checks' =>
    v <- call check [ArgContext ctx] [] ;;
    if is_False v then ret false else run_checks checks' ctx
  end.

Definition Command_can_run (self : Command) (ctx : Context) : M bool :=
  run_checks (can_run_checks self ctx) ctx.

(** *** [Command.invoke_parents] and [Command.invoke] *)

(** The list [parents] of [invoke_parents] before it is reversed. *)
Fixpoint invoke_parents_walk (parent : Command) (parents : list callable)
    : list callable :=
  let parents :=
    match cmd_cog parent with
    | Some cog => parents ++ [Partial (Function (cmd_coro parent)) cog]
    | None => parents ++ [Function (cmd_coro parent)]
    end in
  match cmd_parent parent with
  | None => parents
  | Some p => invoke_parents_walk p parents
  end.

Fixpoint run_coros (coros : list callable) (ctx : Context) : M unit :=
  match coros with
  | [] => ret tt
  | coro :: coros' => call coro [ArgContext ctx] [] ;;; run_coros coros' ctx
  end.

Definition Command_invoke_parents (self : Command) (ctx : Context) : M unit :=
  let parents :=
    match cmd_parent self with
    | None => []
    | Some p => invoke_parents_walk p []
    end in
  run_coros (rev parents) ctx.

(** [logger.debug] is left out: it reads the context and calls nothing of
    the engine. *)
Definition Command_invoke (self : Command) (ctx : Context) : M unit :=
  ok <- Command_can_run self ctx ;;
  if negb ok then
    raise (CheckFailure
      ("The check functions for " +:+ Command_qualname self +:+ " failed."))
  else
    Command_invoke_parents self ctx ;;;
    match cmd_cog self with
    | Some cog =>
      call (Function (cmd_coro self)) [ArgCog cog] (ctx_options ctx) ;;; ret tt
    | None =>
      call (Function (cmd_coro self)) [] (ctx_options ctx) ;;; ret tt
    end.

(** *** [ComponentCallback] *)

(** The [matcher] argument of the constructor, by the test that takes it
    (lines 461-474); a [SelectMenu] is given by its [custom_id]. *)
Inductive matcher_arg : Type :=
| MCoroutineFunction (f : fn)
| MButton (b : Button)
| MSelectMenu (custom_id : string)
| MString (s : string)
| MCallable (f : fn).

(** [ComponentCallback.__init__]; [max_uses] is
    [kwargs.pop('max_uses', None)]. *)
Definition ComponentCallback_init (coro : fn) (m : matcher_arg)
    (check : option pyfunction) (max_uses : option Z) : ComponentCallback :=
  {| cb_coro := coro;
     cb_check := BaseCallback_init check;
     cb_cog := None;
     cb_matcher :=
       match m with
       | MCoroutineFunction f => MatchCoro f
       | MButton b => MatchComp (btn_custom_id b)
       | MSelectMenu c => MatchComp (Some c)
       | MString s => MatchId s
       | MCallable f => MatchCall f
       end;
     cb_max_uses := max_uses |}.

(** [await self.matcher(ctx)] *)
Definition matcher_outcome (w : world) (m : matcher)
    (ctx : ComponentContext) : outcome :=
  match m with
  | MatchCoro f => user w f [ArgComponentContext ctx] []
  | MatchComp c => Returns (PyBool (bool_decide (Some (ctx_custom_id ctx) = c)))
  | MatchId s => Returns (PyBool (bool_decide (ctx_custom_id ctx = s)))
  | MatchCall f => user w f [ArgComponentContext ctx] []
  end.

(** Whether a set takes the callbacks at [a] and [b] for one member.
    [__hash__] is the hash of [(self.coro, self.matcher)] and the [__eq__]
    of [discord.Object] compares the [id], which is 0 for every callback;
    the closures [match_comp], [match_id] and [match] are made anew for
    each callback, a coroutine function given as matcher is kept as it is. *)
Definition same_member (cbs : list ComponentCallback) (a b : nat) : bool :=
  bool_decide (a = b)
  || (bool_decide (cb_coro (cbs !!! a) = cb_coro (cbs !!! b))
      && match cb_matcher (cbs !!! a), cb_matcher (cbs !!! b) with
         | MatchCoro f, MatchCoro g => bool_decide (f = g)
         | _, _ => false
         end).

(** [bot.comp_callbacks.discard(self)] *)
Definition discard (self : nat) (w : world) : world :=
  {| trace := trace w; callbacks := callbacks w;
     comp_callbacks :=
       filter (fun b => same_member (callbacks w) self b = false)
              (comp_callbacks w) |}.

Definition ComponentCallback_deregister (self : nat) : M unit :=
  fun w =>
    (Ok tt, emit (Dispatched "component_callback_deregister" self)
                 (discard self w)).

(** [self.max_uses = n] *)
Definition set_max_uses (self : nat) (n : Z) : M unit :=
  fun w =>
    let cb := callbacks w !!! self in
    (Ok tt,
     {| trace := trace w;
        callbacks :=
          <[self := {| cb_coro := cb_coro cb; cb_check := cb_check cb;
                       cb_cog := cb_cog cb; cb_matcher := cb_matcher cb;
                       cb_max_uses := Some n |}]> (callbacks w);
        comp_callbacks := comp_callbacks w |}).

(** The attributes of [self], read off the store. *)
Definition load (self : nat) : M ComponentCallback :=
  fun w => (Ok (callbacks w !!! self), w).

(** [logger.debug] is left out: it reads the context and calls nothing of
    the engine. *)
Definition ComponentCallback_invoke (self : nat) (ctx : ComponentContext)
    : M unit :=
  cb <- load self ;;
  v <- call (cb_check cb) [ArgComponentContext ctx] [] ;;
  if is_False v then
    raise (CheckFailure
      ("The check function for " +:+ repr_callback self +:+ " failed."))
  else
    cb <- load self ;;
    (match cb_max_uses cb with
     | Some n =>
       set_max_uses self (n - 1) ;;;
       if (n - 1 <=? 0)%Z then ComponentCallback_deregister self else ret tt
     | None => ret tt
     end) ;;;
    cb <- load self ;;
    match cb_cog cb with
    | Some cog =>
      call (Function (cb_coro cb))
           (ArgCog cog :: ArgComponentContext ctx :: map ArgValue (ctx_values ctx))
           [] ;;; ret tt
    | None =>
      call (Function (cb_coro cb))
           (ArgComponentContext ctx :: map ArgValue (ctx_values ctx))
           [] ;;; ret tt
    end.

(** Modelled from the spec: the loop that offers an event to the
    callbacks is in bot.py, which is not among the sources; an event is
    offered to every registered callback whose matcher returns true. *)
Definition offered (w : world) (ctx : ComponentContext) : list nat :=
  filter (fun a => matcher_outcome w (cb_matcher (callbacks w !!! a)) ctx
                   = Returns (PyBool true))
         (comp_callbacks w).

End Engine.

(** ** The vocabulary of the properties *)

Section Vocabulary.
Variable user : world -> fn -> list pyarg -> list (string * pyval) -> outcome.

(** The check of a parent as [can_run] collects it: bound to the cog of
    the parent when it has one. *)
Definition own_check (p : Command) : callable :=
  match cmd_cog p with
  | Some cog => Partial (cmd_check p) cog
  | None => cmd_check p
  end.

(** The handler of a parent as [invoke_parents] collects it. *)
Definition own_coro (p : Command) : callable :=
  match cmd_cog p with
  | Some cog => Partial (Function (cmd_coro p)) cog
  | None => Function (cmd_coro p)
  end.

(** The list [cogs] after the loop of [can_run] went through [chain],
    having started from [cogs]. *)
Definition cog_checks (chain : list Command) (cogs : list callable)
    : list callable :=
  foldl (fun cogs p =>
           match cmd_cog p with
           | Some cog =>
             match cog_check cog with
             | Some f =>
               if bool_decide (Method cog f ∈ cogs) then cogs
               else cogs ++ [Method cog f]
             | None => cogs
             end
           | None => cogs
           end) cogs chain.

(** The event of calling a check or the handler of a parent: [c(ctx)]. *)
Definition ctx_call (ctx : Context) (c : callable) : event :=
  Called c [ArgContext ctx] [].

(** The event of calling the handler of the leaf. *)
Definition leaf_call (self : Command) (ctx : Context) : event :=
  match cmd_cog self with
  | Some cog => Called (Function (cmd_coro self)) [ArgCog cog] (ctx_options ctx)
  | None => Called (Function (cmd_coro self)) [] (ctx_options ctx)
  end.

(** What awaiting the call of an event yields in the world [w]. *)
Definition outcome_of (w : world) (e : event) : outcome :=
  match e with
  | Called c args kw => apply user w c args kw
  | Dispatched _ _ => Returns PyNone
  end.

Definition returns (o : outcome) : bool :=
  match o with
  | Returns _ => true
  | Throws _ => false
  end.

(** Each of [checks], called in turn from the world [w], returns, and
    returns something other than [False]. *)
Fixpoint passes (checks : list callable) (ctx : Context) (w : world) : bool :=
  match checks with
  | [] => true
  | c :: checks' =>
    match apply user w c [ArgContext ctx] [] with
    | Returns v => negb (is_False v) && passes checks' ctx (emit (ctx_call ctx c) w)
    | Throws _ => false
    end
  end.

(** Each of [coros], called in turn from the world [w], returns. *)
Fixpoint all_return (coros : list callable) (ctx : Context) (w : world)
    : bool :=
  match coros with
  | [] => true
  | c :: coros' =>
    returns (apply user w c [ArgContext ctx] [])
    && all_return coros' ctx (emit (ctx_call ctx c) w)
  end.

(** The handlers of the parents as [invoke_parents] calls them: from the
    root down to the nearest parent. *)
Definition parent_coros (self : Command) : list callable :=
  map own_coro (rev (ancestors self)).

End Vocabulary.

(** The binding [(param.name, typ)] a parameter annotated with a subclass
    of [Context] gives [self._ctx_arg]. *)
Definition context_arg (coro : pyfunction) (p : param)
    : option (string * pyclass) :=
  match annotation_of coro p with
  | ObjClass c => if sub_Context c then Some (param_name p, c) else None
  | _ => None
  end.

(** How many required parameters have no valid annotation. *)
Definition count_unannotated (coro : pyfunction) (ps : list param) : nat :=
  length (List.filter (unannotated_required coro) ps).

(** The error of a required parameter with no valid annotation. *)
Definition unannotated_error (repr : string -> string) (name : string) : exn :=
  TypeError ("Command " +:+ repr name +:+
             " cannot have a required argument with no valid annotation").

(** The object [Command.__init__] stores for a parameter annotated with
    the option [proto]: its fields, with [required] forced when the
    parameter has no default and the name filled in when it is unset. *)
Definition stored_option (p : param) (proto : Option) : Option :=
  {| opt_name :=
       match opt_name proto with
       | Some n => Some n
       | None => Some (param_name p)
       end;
     opt_description := opt_description proto;
     opt_type := opt_type proto;
     opt_required :=
       if is_None (param_default p) then true else opt_required proto;
     opt_choices := opt_choices proto |}.

(** The event of calling the handler of a component callback
    (lines 492-495). *)
Definition component_call (cb : ComponentCallback) (ctx : ComponentContext)
    : event :=
  match cb_cog cb with
  | Some cog =>
    Called (Function (cb_coro cb))
           (ArgCog cog :: ArgComponentContext ctx :: map ArgValue (ctx_values ctx))
           []
  | None =>
    Called (Function (cb_coro cb))
           (ArgComponentContext ctx :: map ArgValue (ctx_values ctx)) []
  end.

(** The callback [cb] once it was used [n] times. *)
Definition used (n : Z) (cb : ComponentCallback) : ComponentCallback :=
  {| cb_coro := cb_coro cb; cb_check := cb_check cb; cb_cog := cb_cog cb;
     cb_matcher := cb_matcher cb;
     cb_max_uses := (fun m => m - n) <$> cb_max_uses cb |}.

(** ** Scenarios

    Concrete commands, cogs and user coroutines, on which the properties
    below are exercised. *)

(** The values of the permission types on the wire. *)
Definition wire_value (t : ApplicationCommandPermissionType) : Z :=
  match t with
  | ROLE => 1
  | USER => 2
  end.

(** A command with no cog, no options and no permission override. *)
Definition plain_command (coro : fn) (check : callable) (name : string)
    (parent : option Command) : Command :=
  {| cmd_coro := coro; cmd_check := check; cmd_cog := None; cmd_id := None;
     cmd_name := name; cmd_description := Some "A command.";
     cmd_guild_id := None; cmd_parent := parent;
     cmd_default_permission := true; cmd_permissions := [];
     cmd_ctx_arg := None; cmd_options := [] |}.

(** [cmd.cog = cog], as the registration of a cog does. *)
Definition with_cog (cog : Cog) (self : Command) : Command :=
  {| cmd_coro := cmd_coro self; cmd_check := cmd_check self;
     cmd_cog := Some cog; cmd_id := cmd_id self; cmd_name := cmd_name self;
     cmd_description := cmd_description self;
     cmd_guild_id := cmd_guild_id self; cmd_parent := cmd_parent self;
     cmd_default_permission := cmd_default_permission self;
     cmd_permissions := cmd_permissions self;
     cmd_ctx_arg := cmd_ctx_arg self; cmd_options := cmd_options self |}.

(** [stop], allowed to the role 7 everywhere by
    [add_perm(role, True, None)] and denied to it in its guild 100 by
    [add_perm(role, False)]. *)
Definition stop_command : Command :=
  let stop := plain_command 4%nat DefaultCheck "stop" None in
  match Command_add_perm stop (TRole 7 100) true (Some None) None with
  | Ok stop =>
    match Command_add_perm stop (TRole 7 100) false None None with
    | Ok stop => stop
    | Raise _ => stop
    end
  | Raise _ => stop
  end.

(** The world before anything happened. *)
Definition empty_world : world :=
  {| trace := []; callbacks := []; comp_callbacks := [] |}.

(** User coroutines that all return [None]. *)
Definition quiet_user (w : world) (f : fn) (args : list pyarg)
    (kw : list (string * pyval)) : outcome :=
  Returns PyNone.

(** The group [say] of demo_bot.py and its subcommand [repeat], with no
    check attached, and the invocation [say repeat message=hi]. *)
Definition say : Command := plain_command 1%nat DefaultCheck "say" None.

Definition repeat : Command :=
  plain_command 2%nat DefaultCheck "repeat" (Some say).

Definition hi_ctx : Context :=
  {| ctx_client_checks := []; ctx_options := [("message", PyStr "hi")] |}.

(** A cog whose [cog_check] is the function 20, which returns [False];
    every other coroutine returns [None]. *)
Definition guarded_cog : Cog := {| cog_id := 1%nat; cog_check := Some 20%nat |}.

Definition denying_user (w : world) (f : fn) (args : list pyarg)
    (kw : list (string * pyval)) : outcome :=
  if (f =? 20)%nat then Returns (PyBool false) else Returns PyNone.

(** In that cog: the top-level command [stop]; and the group [say], whose
    check is the coroutine function 21, with its subcommand [repeat]. *)
Definition guarded_stop : Command :=
  with_cog guarded_cog (plain_command 4%nat DefaultCheck "stop" None).

Definition guarded_say : Command :=
  with_cog guarded_cog (plain_command 1%nat (Function 21%nat) "say" None).

Definition guarded_repeat : Command :=
  with_cog guarded_cog
    (plain_command 2%nat DefaultCheck "repeat" (Some guarded_say)).

(** An invocation on a bot with the two global checks 30 and 31,
    registered in that order. *)
Definition busy_ctx : Context :=
  {| ctx_client_checks := [30%nat; 31%nat];
     ctx_options := [("message", PyStr "hi")] |}.

(** A chain of three: the group [tools], its group [text] and the
    command [upper] of that one, with no check attached. *)
Definition tools : Command := plain_command 5%nat DefaultCheck "tools" None.

Definition tools_text : Command :=
  plain_command 6%nat DefaultCheck "text" (Some tools).

Definition tools_text_upper : Command :=
  plain_command 7%nat DefaultCheck "upper" (Some tools_text).

(** User coroutines of which the function 5, the handler of [tools],
    raises, the others returning [None]; and of which the function 7,
    the handler of [upper], does. *)
Definition root_hook_user (w : world) (f : fn) (args : list pyarg)
    (kw : list (string * pyval)) : outcome :=
  if (f =? 5)%nat then Throws (UserError 3%nat) else Returns PyNone.

Definition leaf_raising_user (w : world) (f : fn) (args : list pyarg)
    (kw : list (string * pyval)) : outcome :=
  if (f =? 7)%nat then Throws (UserError 4%nat) else Returns PyNone.

(** [repr] of a string that holds no quote and no escape. *)
Definition py_repr (s : string) : string := "'" +:+ s +:+ "'".

(** The option made of a [ChoiceEnum]: a string option, not required. *)
Definition choice_option (c : pyclass) : Option :=
  {| opt_name := None; opt_description := "A choice."; opt_type := 3;
     opt_required := false; opt_choices := [] |}.

(** [slash.Context] itself. *)
Definition Context_class : pyclass :=
  {| cls_id := 1%nat; sub_Context := true; sub_ChoiceEnum := false |}.

Definition no_kwargs : kwargs :=
  {| kw_check := None; kw_name := None; kw_description := None;
     kw_guild_id := None; kw_guild := None; kw_parent := None;
     kw_default_permission := None |}.

(** [msg_opt] of demo_bot.py, a prototype with [required=True] and no
    name, the only option in the store. *)
Definition msg_opt : Option :=
  {| opt_name := None; opt_description := "Message to send"; opt_type := 3;
     opt_required := true; opt_choices := [] |}.

Definition demo_heap : heap := [msg_opt].

Definition demo_globals : gmap string pyobj :=
  {[ "slash.Context" := ObjClass Context_class; "msg_opt" := ObjOption 0%nat ]}.

Definition handler (f : fn) (name : string) (ps : list param) : pyfunction :=
  {| fn_id := f; fn_name := name; fn_doc := Some "Does something.";
     fn_iscoroutinefunction := true; fn_parameters := ps;
     fn_globals := demo_globals |}.

Definition ctx_param : param :=
  {| param_name := "ctx"; param_annotation := AnnStr "slash.Context";
     param_default := None |}.

Definition bare_param (name : string) : param :=
  {| param_name := name; param_annotation := AnnObj ObjEmpty;
     param_default := None |}.

(** [echo(ctx: slash.Context, first: msg_opt, second: msg_opt)]: the
    prototype shared by two parameters. *)
Definition first_param : param :=
  {| param_name := "first"; param_annotation := AnnStr "msg_opt";
     param_default := None |}.

Definition second_param : param :=
  {| param_name := "second"; param_annotation := AnnStr "msg_opt";
     param_default := Some (PyStr "again") |}.

Definition echo_coro : pyfunction :=
  handler 10%nat "echo" [ctx_param; first_param; second_param].

(** [shout(ctx: slash.Context, message: msg_opt = 'hi')]: the same
    prototype on a parameter that has a default. *)
Definition message_default_param : param :=
  {| param_name := "message"; param_annotation := AnnStr "msg_opt";
     param_default := Some (PyStr "hi") |}.

Definition shout_coro : pyfunction :=
  handler 6%nat "shout" [ctx_param; message_default_param].

(** [transfer(ctx: slash.Context, other: slash.Context)]: two parameters
    annotated with [Context]. *)
Definition other_param : param :=
  {| param_name := "other"; param_annotation := AnnObj (ObjClass Context_class);
     param_default := None |}.

Definition transfer_coro : pyfunction :=
  handler 5%nat "transfer" [ctx_param; other_param].

(** [count(self, ctx: slash.Context, n)], with [n] bare as [self] is; and
    [ping(self, ctx: slash.Context)]. *)
Definition count_coro : pyfunction :=
  handler 7%nat "count" [bare_param "self"; ctx_param; bare_param "n"].

Definition ping_coro : pyfunction :=
  handler 8%nat "ping" [bare_param "self"; ctx_param].

(** A callback bound to the button [confirm], to be used once, and the
    world in which it is the only registered callback; a click on the
    button. *)
Definition confirm_callback : ComponentCallback :=
  ComponentCallback_init 9%nat (MString "confirm") None (Some 1).

Definition confirm_world : world :=
  {| trace := []; callbacks := [confirm_callback]; comp_callbacks := [0%nat] |}.

Definition confirm_click : ComponentContext :=
  {| ctx_custom_id := "confirm"; ctx_values := [] |}.

(** A second callback bound to [confirm], with another handler and no
    limit of uses, registered beside the first. *)
Definition other_confirm_callback : ComponentCallback :=
  ComponentCallback_init 8%nat (MString "confirm") None None.

Definition shared_world : world :=
  {| trace := []; callbacks := [confirm_callback; other_confirm_callback];
     comp_callbacks := [0%nat; 1%nat] |}.

(** [repr] of a callback, as [discord.Object] prints it. *)
Definition object_repr (self : nat) : string := "<Object id=0>".

(** ** Further vocabulary *)

(** [sep.join(names)] *)
Fixpoint join (sep : string) (names : list string) : string :=
  match names with
  | [] => ""
  | [n] => n
  | n :: ns => n +:+ sep +:+ join sep ns
  end.

(** The type [add_perm] settles on: the one given, or the one the target
    shows; a bare [discord.Object] shows none. *)
Definition resolved_type (t : target)
    (type : option ApplicationCommandPermissionType)
    : option ApplicationCommandPermissionType :=
  match type, t with
  | Some ty, _ => Some ty
  | None, TRole _ _ => Some ROLE
  | None, (TMember _ _ | TUser _) => Some USER
  | None, TObject _ => None
  end.

(** The guild [add_perm] settles on: the one given ([None] for the
    defaults of all guilds), or the guild of the target; a user that is
    no member, or a bare object, has none. *)
Definition resolved_guild (t : target) (guild_id : option (option Z))
    : option (option Z) :=
  match guild_id, t with
  | Some g, _ => Some g
  | None, (TRole _ g | TMember _ g) => Some (Some g)
  | None, (TUser _ | TObject _) => None
  end.

(** [self.permissions.get(guild_id, {})] *)
Definition overrides (self : Command) (guild_id : option Z)
    : pydict (Z * ApplicationCommandPermissionType) bool :=
  default [] (dict_get guild_id (cmd_permissions self)).

(** The keys of [permissions], and those of each of its values, are
    pairwise distinct, as the keys of Python dictionaries are. *)
Definition perms_wf (p : CommandPermissionsDict) : Prop :=
  dict_wf p /\ forall g d, dict_get g p = Some d -> dict_wf d.

(** ** Further scenarios *)

(** User coroutines of which the function 30 raises, the others
    returning [None]. *)
Definition raising_user (w : world) (f : fn) (args : list pyarg)
    (kw : list (string * pyval)) : outcome :=
  if (f =? 30)%nat then Throws (UserError 1%nat) else Returns PyNone.

(** User coroutines of which the function 1, the handler of [say],
    raises. *)
Definition failing_hook_user (w : world) (f : fn) (args : list pyarg)
    (kw : list (string * pyval)) : outcome :=
  if (f =? 1)%nat then Throws (UserError 2%nat) else Returns PyNone.

(** The group [say] in a cog, with no check of its own, and its
    subcommand [repeat]. *)
Definition cog_say : Command :=
  with_cog guarded_cog (plain_command 1%nat DefaultCheck "say" None).

Definition cog_repeat : Command :=
  with_cog guarded_cog (plain_command 2%nat DefaultCheck "repeat" (Some cog_say)).

(** A callback bound to [confirm] that may be used three times, alone
    in its world; and one whose check is the coroutine function 20. *)
Definition vote_callback : ComponentCallback :=
  ComponentCallback_init 9%nat (MString "confirm") None (Some 3).

Definition vote_world : world :=
  {| trace := []; callbacks := [vote_callback]; comp_callbacks := [0%nat] |}.

Definition guarded_callback : ComponentCallback :=
  ComponentCallback_init 9%nat (MString "confirm")
    (Some (handler 20%nat "deny" [])) (Some 1).

Definition guarded_world : world :=
  {| trace := []; callbacks := [guarded_callback];
     comp_callbacks := [0%nat] |}.

(** ** Further vocabulary: the options of a command *)

(** A parameter that gives the command an option: one annotated with an
    [Option] instance, or with a subclass of [ChoiceEnum] that is no
    subclass of [Context]. *)
Definition is_option_param (coro : pyfunction) (p : param) : bool :=
  match annotation_of coro p with
  | ObjOption _ => true
  | ObjClass c => negb (sub_Context c) && sub_ChoiceEnum c
  | ObjEmpty | ObjOther => false
  end.

(** The option such a parameter starts from: the instance it is
    annotated with, as the store [h] holds it, or the one made of its
    [ChoiceEnum]. *)
Definition prototype (Option_of_ChoiceEnum : pyclass -> Option)
    (coro : pyfunction) (h : heap) (p : param) : Option :=
  match annotation_of coro p with
  | ObjOption a => h !!! a
  | ObjClass c => Option_of_ChoiceEnum c
  | ObjEmpty | ObjOther => inhabitant
  end.

(** ** command.py: [Group.slash_cmd] and [Group.slash_group] *)

Section Groups.
Variable repr : string -> string.
Variable Option_of_ChoiceEnum : pyclass -> Option.

(** [cmd.cog = cog] *)
Definition set_cog (cog : option Cog) (self : Command) : Command :=
  {| cmd_coro := cmd_coro self; cmd_check := cmd_check self;
     cmd_cog := cog; cmd_id := cmd_id self; cmd_name := cmd_name self;
     cmd_description := cmd_description self;
     cmd_guild_id := cmd_guild_id self; cmd_parent := cmd_parent self;
     cmd_default_permission := cmd_default_permission self;
     cmd_permissions := cmd_permissions self;
     cmd_ctx_arg := cmd_ctx_arg self; cmd_options := cmd_options self |}.

(** [kwargs['parent'] = self] *)
Definition set_parent (self : Command) (kw : kwargs) : kwargs :=
  {| kw_check := kw_check kw; kw_name := kw_name kw;
     kw_description := kw_description kw; kw_guild_id := kw_guild_id kw;
     kw_guild := kw_guild kw; kw_parent := Some (Some self);
     kw_default_permission := kw_default_permission kw |}.

(** The decorator [self.slash_cmd], given the keyword arguments [kw]
    and applied to [func], on the group [self] whose
    subcommands are [slash]: the new command and the subcommands after
    it was added.  [Group.slash_group] does the same with a [Group],
    which is built as a [Command] is and starts with no subcommand. *)
Definition Group_slash_cmd (self : Command) (slash : pydict string Command)
    (func : pyfunction) (kw : kwargs) (h : heap)
    : result (Command * pydict string Command) * heap :=
  match Command_init repr Option_of_ChoiceEnum func (set_parent self kw) h with
  | (Ok cmd, h') =>
    let cmd := set_cog (cmd_cog self) cmd in
    (Ok (cmd, dict_set (cmd_name cmd) cmd slash), h')
  | (Raise e, h') => (Raise e, h')
  end.

End Groups.

(** ** components.py: the components and their wire format *)

(** The JSON values of the wire format. *)
#[warnings="-register-all"]
Inductive json : Type :=
| JNull
| JBool (b : bool)
| JInt (n : Z)
| JStr (s : string)
| JList (l : list json)
| JDict (d : list (string * json)).

(** [SelectOption.__init__] stores its arguments. *)
Record SelectOption : Type := {
  so_label : string;
  so_value : string;
  so_description : option string;
  so_emoji : option PartialEmoji;
  so_default : bool
}.

Definition SelectOption_init (label value : string)
    (description : option string) (emoji : option emoji_arg)
    (default : bool) : SelectOption :=
  let emoji :=
    match emoji with
    | Some (EmojiStr s) => Some {| emoji_name := s |}
    | Some (EmojiObj e) => Some e
    | None => None
    end in
  {| so_label := label; so_value := value; so_description := description;
     so_emoji := emoji; so_default := default |}.

(** [SelectMenu.__init__] stores its arguments. *)
Record SelectMenu : Type := {
  sm_custom_id : string;
  sm_options : list SelectOption;
  sm_placeholder : option string;
  sm_min_values : Z;
  sm_max_values : Z;
  sm_disabled : bool
}.

(** The subclasses of [MessageComponent]; an [ActionRow] is its list
    [components]. *)
#[warnings="-register-all"]
Inductive MessageComponent : Type :=
| ActionRow (components : list MessageComponent)
| OfButton (b : Button)
| OfSelectMenu (m : SelectMenu).

(** The argument [first] of [ActionRow.__init__]: a component, or an
    iterable of components. *)
Inductive first_arg : Type :=
| One (c : MessageComponent)
| Many (l : list MessageComponent).

(** [ActionRow.__init__(first, *args)].  An [ActionRow] is neither a
    [SelectMenu] nor a [Button], and it cannot be iterated. *)
Definition ActionRow_init (first : first_arg) (args : list MessageComponent)
    : result MessageComponent :=
  match first with
  | One (OfSelectMenu m) => Ok (ActionRow [OfSelectMenu m])
  | One (OfButton b) => Ok (ActionRow ([OfButton b] ++ args))
  | One (ActionRow _) => Raise (TypeError "'ActionRow' object is not iterable")
  | Many l => Ok (ActionRow (l ++ args))
  end.

(** [d.pop(k, None)], for the dictionary it leaves. *)
Definition dict_del {V : Type} (k : string) (d : pydict string V)
    : pydict string V :=
  List.filter (fun kv => negb (String.eqb kv.1 k)) d.

(** What a [from_dict] can raise: besides the exceptions of [exn], the
    [KeyError] of a subscript and the [RecursionError] of the
    interpreter. *)
Inductive failure : Type :=
| Raised (e : exn)
| KeyError (key : json)
| RecursionError.

(** The outcome of a [from_dict]: the object built, an exception, or
    [Untyped] when the JSON is not typed as the wire format types it (a
    field or an element of another type than the class declares), which
    the records here cannot hold. *)
Inductive decoded (A : Type) : Type :=
| Decoded (a : A)
| Failed (f : failure)
| Untyped.
Arguments Decoded {A} a.
Arguments Failed {A} f.
Arguments Untyped {A}.

Definition decoded_bind {A B : Type} (m : decoded A) (k : A -> decoded B)
    : decoded B :=
  match m with
  | Decoded a => k a
  | Failed f => Failed f
  | Untyped => Untyped
  end.

Definition of_result {A : Type} (r : result A) : decoded A :=
  match r with
  | Ok a => Decoded a
  | Raise e => Failed (Raised e)
  end.

(** A list comprehension over [l]: the elements in order, up to the
    first that fails. *)
Fixpoint decode_each {A B : Type} (f : A -> decoded B) (l : list A)
    : decoded (list B) :=
  match l with
  | [] => Decoded []
  | x :: l' =>
    decoded_bind (f x) (fun y =>
    decoded_bind (decode_each f l') (fun ys => Decoded (y :: ys)))
  end.

(** An integer, or a [bool], which Python hashes and compares as one. *)
Definition as_int (v : json) : option Z :=
  match v with
  | JInt n => Some n
  | JBool b => Some (if b then 1 else 0)
  | _ => None
  end.

(** The value of a keyword argument, by the type its parameter
    declares; an absent argument takes the default. *)
Definition optional_str (v : option json) : decoded (option string) :=
  match v with
  | None | Some JNull => Decoded None
  | Some (JStr s) => Decoded (Some s)
  | Some _ => Untyped
  end.

Definition plain_str (v : option json) : decoded string :=
  match v with
  | Some (JStr s) => Decoded s
  | _ => Untyped
  end.

Definition plain_bool (default : bool) (v : option json) : decoded bool :=
  match v with
  | None => Decoded default
  | Some (JBool b) => Decoded b
  | Some _ => Untyped
  end.

Definition plain_int (default : Z) (v : option json) : decoded Z :=
  match v with
  | None => Decoded default
  | Some (JInt n) => Decoded n
  | Some _ => Untyped
  end.

Definition ButtonStyle_members : list ButtonStyle :=
  [PRIMARY; SECONDARY; SUCCESS; DANGER; LINK].

Section Components.

(** [simples.py] is not among the sources: [int(style)], the value of a
    member of the enumeration. *)
Variable ButtonStyle_int : ButtonStyle -> Z.

(** [discord.PartialEmoji.to_dict] and [discord.PartialEmoji.from_dict],
    of the library underneath. *)
Variable PartialEmoji_to_dict : PartialEmoji -> json.
Variable PartialEmoji_from_dict : json -> decoded PartialEmoji.

(** The messages of the interpreter: [repr] of a value; the [TypeError]
    of a call for a keyword it cannot bind, and for required arguments
    that are missing. *)
Variable repr_json : json -> string.
Variable bad_keyword : string -> string.
Variable missing_arguments : list string -> string.

Local Notation "x <- m ;; k" := (decoded_bind m (fun x => k))
  (at level 100, m at next level, right associativity).
Local Notation "m ;;; k" := (decoded_bind m (fun _ => k))
  (at level 100, right associativity).

(** *** [to_dict] *)

(** [MessageComponent.to_dict], for the class whose [type] is [type]. *)
Definition MessageComponent_to_dict (type : Z) : pydict string json :=
  [("type", JInt type)].

(** [if v: result[k] = v], for an [Optional[str]]. *)
Definition set_truthy (k : string) (v : option string)
    (result : pydict string json) : pydict string json :=
  match v with
  | Some s => if truthy v then dict_set k (JStr s) result else result
  | None => result
  end.

(** [if self.emoji: result['emoji'] = self.emoji.to_dict()]; a
    [PartialEmoji] is an object without [__bool__] or [__len__], so it
    is truthy. *)
Definition set_emoji (v : option PartialEmoji)
    (result : pydict string json) : pydict string json :=
  match v with
  | Some e => dict_set "emoji" (PartialEmoji_to_dict e) result
  | None => result
  end.

(** [Button.to_dict] *)
Definition Button_to_dict (self : Button) : pydict string json :=
  let result := MessageComponent_to_dict 2 in
  let result := dict_update result
    [("style", JInt (ButtonStyle_int (btn_style self)));
     ("disabled", JBool (btn_disabled self))] in
  let result := set_truthy "label" (btn_label self) result in
  let result := set_emoji (btn_emoji self) result in
  let result := set_truthy "custom_id" (btn_custom_id self) result in
  let result := set_truthy "url" (btn_url self) result in
  result.

(** [SelectOption.to_dict] *)
Definition SelectOption_to_dict (self : SelectOption) : pydict string json :=
  let result :=
    [("label", JStr (so_label self)); ("value", JStr (so_value self));
     ("default", JBool (so_default self))] in
  let result := set_truthy "description" (so_description self) result in
  let result := set_emoji (so_emoji self) result in
  result.

(** [SelectMenu.to_dict] *)
Definition SelectMenu_to_dict (self : SelectMenu) : pydict string json :=
  let result := MessageComponent_to_dict 3 in
  let result := dict_update result
    [("custom_id", JStr (sm_custom_id self));
     ("options",
      JList ((fun opt => JDict (SelectOption_to_dict opt)) <$> sm_options self));
     ("min_values", JInt (sm_min_values self));
     ("max_values", JInt (sm_max_values self));
     ("disabled", JBool (sm_disabled self))] in
  let result := set_truthy "placeholder" (sm_placeholder self) result in
  result.

(** [comp.to_dict()], by the class of [comp]; for an [ActionRow],
    [ActionRow.to_dict]. *)
Fixpoint to_dict (comp : MessageComponent) : pydict string json :=
  match comp with
  | ActionRow components =>
    let result := MessageComponent_to_dict 1 in
    dict_set "components" (JList (map (fun c => JDict (to_dict c)) components))
      result
  | OfButton b => Button_to_dict b
  | OfSelectMenu m => SelectMenu_to_dict m
  end.

(** *** [from_dict] *)

(** [MessageComponent.clean_data] *)
Definition clean_data (data : pydict string json) : pydict string json :=
  dict_del "hash" (dict_del "type" data).

(** [ButtonStyle(v)]: the member whose value equals [v]. *)
Definition ButtonStyle_of (v : json) : decoded ButtonStyle :=
  match as_int v ≫= fun n =>
          List.find (fun s => bool_decide (ButtonStyle_int s = n))
            ButtonStyle_members with
  | Some s => Decoded s
  | None =>
    Failed (Raised (ValueError (repr_json v +:+ " is not a valid ButtonStyle")))
  end.

(** [data['emoji'] = discord.PartialEmoji.from_dict(data['emoji'])] when
    the key is there. *)
Definition emoji_of (data : pydict string json)
    : decoded (option PartialEmoji) :=
  match dict_get "emoji" data with
  | Some v => e <- PartialEmoji_from_dict v ;; Decoded (Some e)
  | None => Decoded None
  end.

(** The call of [cls] with [data] as keywords, before the body runs: the first key that
    names no parameter is refused, then the required parameters that
    got no value. *)
Definition bind_keywords (params required keys : list string)
    : decoded unit :=
  match List.find (fun k => bool_decide (k ∉ params)) keys with
  | Some k => Failed (Raised (TypeError (bad_keyword k)))
  | None =>
    match List.filter (fun k => bool_decide (k ∉ keys)) required with
    | [] => Decoded tt
    | missing => Failed (Raised (TypeError (missing_arguments missing)))
    end
  end.

(** [Button.from_dict] *)
Definition Button_from_dict (data : pydict string json) : decoded Button :=
  let data := clean_data data in
  match dict_get "style" data with
  | None => Failed (KeyError (JStr "style"))
  | Some v =>
    style <- ButtonStyle_of v ;;
    emoji <- emoji_of data ;;
    bind_keywords ["style"; "label"; "emoji"; "custom_id"; "url"; "disabled"]
      ["style"] data.*1 ;;;
    label <- optional_str (dict_get "label" data) ;;
    custom_id <- optional_str (dict_get "custom_id" data) ;;
    url <- optional_str (dict_get "url" data) ;;
    disabled <- plain_bool false (dict_get "disabled" data) ;;
    of_result (Button_init style label (EmojiObj <$> emoji) custom_id url
                 disabled)
  end.

(** [SelectOption.from_dict], which does not clean its data. *)
Definition SelectOption_from_dict (data : pydict string json)
    : decoded SelectOption :=
  emoji <- emoji_of data ;;
  bind_keywords ["label"; "value"; "description"; "emoji"; "default"]
    ["label"; "value"] data.*1 ;;;
  label <- plain_str (dict_get "label" data) ;;
  value <- plain_str (dict_get "value" data) ;;
  description <- optional_str (dict_get "description" data) ;;
  default <- plain_bool false (dict_get "default" data) ;;
  Decoded (SelectOption_init label value description (EmojiObj <$> emoji)
             default).

(** An element of a list that is to be a dictionary. *)
Definition of_dict {A : Type} (f : pydict string json -> decoded A)
    (v : json) : decoded A :=
  match v with
  | JDict d => f d
  | _ => Untyped
  end.

(** [SelectMenu.from_dict] and [SelectMenu.__init__] *)
Definition SelectMenu_from_dict (data : pydict string json)
    : decoded SelectMenu :=
  let data := clean_data data in
  match dict_get "options" data with
  | None => Failed (KeyError (JStr "options"))
  | Some v =>
    options <- match v with
               | JList l => decode_each (of_dict SelectOption_from_dict) l
               | _ => Untyped
               end ;;
    bind_keywords
      ["custom_id"; "options"; "placeholder"; "min_values"; "max_values";
       "disabled"]
      ["custom_id"; "options"] data.*1 ;;;
    custom_id <- plain_str (dict_get "custom_id" data) ;;
    placeholder <- optional_str (dict_get "placeholder" data) ;;
    min_values <- plain_int 1 (dict_get "min_values" data) ;;
    max_values <- plain_int 1 (dict_get "max_values" data) ;;
    disabled <- plain_bool false (dict_get "disabled" data) ;;
    Decoded {| sm_custom_id := custom_id; sm_options := options;
               sm_placeholder := placeholder; sm_min_values := min_values;
               sm_max_values := max_values; sm_disabled := disabled |}
  end.

(** [ActionRow.from_dict], given [MessageComponent.from_dict] as
    [from_dict]. *)
Definition ActionRow_from_dict
    (from_dict : pydict string json -> decoded MessageComponent)
    (data : pydict string json) : decoded MessageComponent :=
  let data := clean_data data in
  first <- match dict_get "components" data with
           | None => Decoded []
           | Some (JList l) => decode_each (of_dict from_dict) l
           | Some _ => Untyped
           end ;;
  let data := dict_set "first" JNull (dict_del "components" data) in
  bind_keywords ["first"] ["first"] data.*1 ;;;
  of_result (ActionRow_init (Many first) []).

(** [TYPE_CLASSES[data['type']].from_dict(data)] of
    [MessageComponent.from_dict]; [depth] is the nesting the stack of
    the interpreter still allows. *)
Fixpoint MessageComponent_from_dict (depth : nat) (data : pydict string json)
    : decoded MessageComponent :=
  match depth with
  | O => Failed RecursionError
  | S depth =>
    match dict_get "type" data with
    | None => Failed (KeyError (JStr "type"))
    | Some (JList _) => Failed (Raised (TypeError "unhashable type: 'list'"))
    | Some (JDict _) => Failed (Raised (TypeError "unhashable type: 'dict'"))
    | Some v =>
      match as_int v with
      | Some 1 => ActionRow_from_dict (MessageComponent_from_dict depth) data
      | Some 2 => b <- Button_from_dict data ;; Decoded (OfButton b)
      | Some 3 => m <- SelectMenu_from_dict data ;; Decoded (OfSelectMenu m)
      | _ => Failed (KeyError v)
      end
    end
  end.

End Components.

(** The nesting of a component. *)
Fixpoint height (comp : MessageComponent) : nat :=
  match comp with
  | ActionRow components => S (foldr (fun c n => max (height c) n) 0%nat components)
  | _ => 1%nat
  end.

(** A string field that [to_dict] writes: not the empty string, which
    is falsy. *)
Definition written (v : option string) : bool :=
  negb (bool_decide (v = Some "")).

(** The components no optional string of which is empty. *)
Fixpoint no_empty_string (comp : MessageComponent) : bool :=
  match comp with
  | ActionRow components => forallb no_empty_string components
  | OfButton b => written (btn_label b)
  | OfSelectMenu m =>
    written (sm_placeholder m)
    && forallb (fun opt => written (so_description opt)) (sm_options m)
  end.

(** The buttons of a component are such as [Button.__init__] accepts. *)
Definition accepted (b : Button) : bool :=
  negb (Button_raises (btn_style b) (btn_label b) (EmojiObj <$> btn_emoji b)
          (btn_custom_id b) (btn_url b)).

Fixpoint constructed (comp : MessageComponent) : bool :=
  match comp with
  | ActionRow components => forallb constructed components
  | OfButton b => accepted b
  | OfSelectMenu _ => true
  end.

(** Values for what the sources leave open: the styles numbered from 1
    in the order of their declaration, an emoji written as its name. *)
Definition style_value (s : ButtonStyle) : Z :=
  match s with
  | PRIMARY => 1
  | SECONDARY => 2
  | SUCCESS => 3
  | DANGER => 4
  | LINK => 5
  end.

Definition emoji_json (e : PartialEmoji) : json :=
  JDict [("name", JStr (emoji_name e))].

Definition emoji_of_json (v : json) : decoded PartialEmoji :=
  match v with
  | JDict d =>
    match dict_get "name" d with
    | Some (JStr s) => Decoded {| emoji_name := s |}
    | _ => Untyped
    end
  | _ => Untyped
  end.

Definition json_repr (v : json) : string := "<json>".
Definition keyword_message (k : string) : string :=
  "got an unexpected keyword argument " +:+ k.
Definition missing_message (ks : list string) : string :=
  "missing required arguments".

(** A button that opens the documentation, and a row that holds it. *)
Definition docs_button : Button :=
  {| btn_style := LINK; btn_label := Some "Docs"; btn_emoji := None;
     btn_custom_id := None; btn_url := Some "https://example.org";
     btn_disabled := false |}.

Definition colour_menu : SelectMenu :=
  {| sm_custom_id := "colour";
     sm_options :=
       [SelectOption_init "Red" "r" (Some "warm") (Some (EmojiStr "R")) true;
        SelectOption_init "Blue" "b" None None false];
     sm_placeholder := Some "Pick one"; sm_min_values := 1;
     sm_max_values := 1; sm_disabled := false |}.

Definition docs_row : MessageComponent :=
  ActionRow [OfButton docs_button; ActionRow [OfSelectMenu colour_menu]].

(** * Properties *)

(** ** [Button] *)

(** C10, as the constructor has it.  [Button.__init__] raises a
    [TypeError] exactly when the style is LINK and a [custom_id] is given
    or the [url] is [None] or empty; or the style is not LINK and the
    [custom_id] is [None] or empty or a [url] is given; or both [label] and
    [emoji] are [None].  Otherwise it returns the button. *)
Theorem Button_init_raises_iff :
  forall style label emoji custom_id url disabled,
    is_TypeError (Button_init style label emoji custom_id url disabled)
      = Button_raises style label emoji custom_id url
    /\ is_Ok (Button_init style label emoji custom_id url disabled)
      = negb (Button_raises style label emoji custom_id url).
Proof.
  intros style label emoji custom_id url disabled.
  unfold Button_init, Button_raises.
  destruct (decide (style = LINK)) as [Hs | Hs].
  - rewrite (bool_decide_eq_true_2 _ Hs).
    destruct custom_id as [c |]; simpl; [ split; reflexivity |].
    destruct (truthy url); simpl; [| split; reflexivity ].
    destruct label, emoji; split; reflexivity.
  - rewrite (bool_decide_eq_false_2 _ Hs). simpl.
    destruct (truthy custom_id); simpl; [| split; reflexivity ].
    destruct url as [u |]; simpl; [ split; reflexivity |].
    destruct label, emoji; split; reflexivity.
Qed.

(** C10 as stated fails: a LINK button whose [url] is the empty string is
    refused, although its [url] is supplied, no [custom_id] is, and it has a
    label. *)
Lemma Button_init_empty_url :
  Button_raises_spec LINK (Some "Docs") None None (Some "") = false
  /\ Button_init LINK (Some "Docs") None None (Some "") false
     = Raise (TypeError "LINK-style Buttons must have a url").
Proof. split; reflexivity. Qed.

(** ** Dictionaries *)

Section PyDictFacts.
Context {K V : Type} `{EqDecision K}.
Implicit Types (d items : pydict K V) (k : K) (v : V).

Lemma dict_get_set_eq k v d : dict_get k (dict_set k v d) = Some v.
Proof.
  induction d as [| [k' v'] d IH]; simpl.
  - rewrite decide_True; done.
  - destruct (decide (k = k')) as [-> | Hne]; simpl.
    + rewrite decide_True; done.
    + rewrite decide_False; done.
Qed.

Lemma dict_get_set_ne k k' v d :
  k <> k' -> dict_get k' (dict_set k v d) = dict_get k' d.
Proof.
  intros Hne. induction d as [| [k0 v0] d IH]; simpl.
  - rewrite decide_False; [done | congruence].
  - destruct (decide (k = k0)) as [-> | Hne0]; simpl.
    + destruct (decide (k' = k0)); congruence.
    + destruct (decide (k' = k0)); done.
Qed.

Lemma dict_get_None k d : dict_get k d = None <-> k ∉ d.*1.
Proof.
  induction d as [| [k' v'] d IH]; simpl.
  - split; [intros _; apply not_elem_of_nil | done].
  - rewrite not_elem_of_cons. destruct (decide (k = k')) as [-> | Hne].
    + split; [done | intros [? _]; done].
    + rewrite IH. tauto.
Qed.

Lemma dict_set_keys_in k v d : k ∈ d.*1 -> (dict_set k v d).*1 = d.*1.
Proof.
  induction d as [| [k' v'] d IH]; simpl; intros Hin.
  - by apply elem_of_nil in Hin.
  - destruct (decide (k = k')) as [-> | Hne]; simpl; [done |].
    apply elem_of_cons in Hin as [? | Hin]; [done |]. f_equal. by apply IH.
Qed.

Lemma dict_set_keys_notin k v d :
  k ∉ d.*1 -> (dict_set k v d).*1 = d.*1 ++ [k].
Proof.
  induction d as [| [k' v'] d IH]; simpl; intros Hin; [done |].
  apply not_elem_of_cons in Hin as [Hne Hin].
  destruct (decide (k = k')) as [-> | _]; simpl; [done |]. f_equal. by apply IH.
Qed.

Lemma dict_set_wf k v d : dict_wf d -> dict_wf (dict_set k v d).
Proof.
  unfold dict_wf. intros Hwf.
  destruct (decide (k ∈ d.*1)) as [Hin | Hin].
  - by rewrite dict_set_keys_in.
  - rewrite dict_set_keys_notin by done.
    apply NoDup_app. split; [done |]. split.
    + intros x Hx Hx'. apply list_elem_of_singleton in Hx'. by subst.
    + apply NoDup_singleton.
Qed.

Lemma dict_update_wf d items : dict_wf d -> dict_wf (dict_update d items).
Proof.
  unfold dict_update. revert d.
  induction items as [| [k v] items IH]; intros d Hwf; simpl; [done |].
  apply IH. by apply dict_set_wf.
Qed.

(** [d.update(items)], item by item: the items win, the rest of [d]
    stays. *)
Lemma dict_get_update k d items :
  dict_wf items ->
  dict_get k (dict_update d items)
  = match dict_get k items with
    | Some v => Some v
    | None => dict_get k d
    end.
Proof.
  unfold dict_update, dict_wf. revert d.
  induction items as [| [k' v'] items IH]; intros d Hwf; simpl; [done |].
  apply NoDup_cons in Hwf as [Hk' Hwf]. rewrite IH by done.
  destruct (decide (k = k')) as [-> | Hne].
  - apply dict_get_None in Hk'. simpl in Hk'. rewrite Hk'.
    apply dict_get_set_eq.
  - rewrite dict_get_set_ne by congruence. done.
Qed.

End PyDictFacts.

(** ** [Command.perms_dict] *)

Section Permissions.
Variable value : ApplicationCommandPermissionType -> Z.

(** Looking a target up in the entries is looking it up in [final]. *)
Lemma perm_lookup_entries (final : pydict (Z * ApplicationCommandPermissionType) bool)
    (i : option Z) (oid : Z) (ty : ApplicationCommandPermissionType) :
  (forall x y, value x = value y -> x = y) ->
  perm_lookup {| pr_id := i; pr_permissions := map (entry_of value) final |}
              oid (value ty)
  = dict_get (oid, ty) final.
Proof.
  intros Hinj. unfold perm_lookup. simpl.
  induction final as [| [[oid' ty'] b] final IH]; [done |].
  simpl. rewrite filter_cons. simpl.
  destruct (decide (oid' = oid ∧ value ty' = value ty)) as [[-> Hv] | Hne].
  - apply Hinj in Hv as ->. rewrite decide_True; done.
  - rewrite decide_False; [exact IH |].
    intros [= -> ->]. apply Hne. done.
Qed.

(** C8.  [perms_dict(guild_id)] returns the command's id and one entry
    [{id, type, permission}] for each key of the global overrides
    overlaid by the overrides of the guild, where the guild's value
    wins.  So a target that is allowed globally and denied in a guild is
    denied in the view of that guild, and allowed in the view of any
    guild whose overrides do not name it. *)
Theorem perms_dict_merge (self : Command) (guild_id : option Z) :
  (forall x y, value x = value y -> x = y) ->
  (forall g d, dict_get g (cmd_permissions self) = Some d -> dict_wf d) ->
  let overrides g := default [] (dict_get g (cmd_permissions self)) in
  let merged g k :=
    match dict_get k (overrides g) with
    | Some b => Some b
    | None => dict_get k (overrides None)
    end in
  pr_id (Command_perms_dict value self guild_id) = cmd_id self
  /\ (exists final,
        pr_permissions (Command_perms_dict value self guild_id)
        = map (entry_of value) final
        /\ dict_wf final
        /\ forall k, dict_get k final = merged guild_id k)
  /\ (forall oid ty,
        perm_lookup (Command_perms_dict value self guild_id) oid (value ty)
        = merged guild_id (oid, ty))
  /\ (forall oid ty,
        dict_get (oid, ty) (overrides None) = Some true ->
        dict_get (oid, ty) (overrides guild_id) = Some false ->
        perm_lookup (Command_perms_dict value self guild_id) oid (value ty)
        = Some false
        /\ forall other,
             dict_get (oid, ty) (overrides other) = None ->
             perm_lookup (Command_perms_dict value self other) oid (value ty)
             = Some true).
Proof.
  intros Hinj Hwf overrides merged.
  assert (Hwf' : forall g, dict_wf (overrides g)).
  { intros g. unfold overrides.
    destruct (dict_get g (cmd_permissions self)) as [d |] eqn:Hg; simpl.
    - by apply (Hwf g).
    - apply NoDup_nil_2. }
  assert (Hlookup : forall g oid ty,
    perm_lookup (Command_perms_dict value self g) oid (value ty)
    = merged g (oid, ty)).
  { intros g oid ty. unfold Command_perms_dict.
    rewrite (perm_lookup_entries _ _ _ _ Hinj).
    apply dict_get_update, Hwf'. }
  split; [done |]. split; [| split; [apply Hlookup |]].
  - exists (dict_update (overrides None) (overrides guild_id)).
    split; [done |]. split.
    + apply dict_update_wf, Hwf'.
    + intros k. apply dict_get_update, Hwf'.
  - intros oid ty Hglobal Hguild. split.
    + rewrite Hlookup. unfold merged. by rewrite Hguild.
    + intros other Hother. rewrite Hlookup. unfold merged.
      by rewrite Hother.
Qed.

End Permissions.

(** On [stop]: the role 7 is denied in the guild 100 and allowed in the
    guild 200. *)
Lemma perms_dict_merge_witness :
  (forall x y, wire_value x = wire_value y -> x = y)
  /\ (forall g d, dict_get g (cmd_permissions stop_command) = Some d -> dict_wf d)
  /\ perm_lookup (Command_perms_dict wire_value stop_command (Some 100)) 7 1
     = Some false
  /\ perm_lookup (Command_perms_dict wire_value stop_command (Some 200)) 7 1
     = Some true.
Proof.
  assert (Hinj : forall x y, wire_value x = wire_value y -> x = y).
  { intros [] []; simpl; congruence. }
  assert (Hwf : forall g d,
    dict_get g (cmd_permissions stop_command) = Some d -> dict_wf d).
  { intros g d. vm_compute.
    destruct g as [g |]; repeat case_match; intros [= <-];
      repeat constructor; set_solver. }
  split; [exact Hinj |]. split; [exact Hwf |].
  destruct (perms_dict_merge wire_value stop_command (Some 100) Hinj Hwf)
    as (_ & _ & _ & Hscenario).
  destruct (Hscenario 7 ROLE eq_refl eq_refl) as [Hguild Hother].
  split; [exact Hguild |]. exact (Hother (Some 200) eq_refl).
Defined.

(** ** The resolution engine *)

(** Take a command apart, naming its cog and its parent. *)
Ltac take_apart c cog parent :=
  destruct c as [? ? cog ? ? ? ? parent ? ? ? ?].

(** Induction along the chain of parents. *)
Lemma Command_chain_ind (P : Command -> Prop) :
  (forall c, cmd_parent c = None -> P c) ->
  (forall c p, cmd_parent c = Some p -> P p -> P c) ->
  forall c, P c.
Proof.
  intros Hroot Hchild. fix IH 1. intros c.
  take_apart c cog parent. destruct parent as [p |].
  - apply (Hchild _ p); [reflexivity | apply IH].
  - apply Hroot. reflexivity.
Qed.

Lemma emits_nil w : emits [] w = w.
Proof. destruct w. unfold emits. simpl. by rewrite app_nil_r. Qed.

Lemma emit_emits e w : emit e w = emits [e] w.
Proof. reflexivity. Qed.

Lemma emits_emits es1 es2 w : emits es2 (emits es1 w) = emits (es1 ++ es2) w.
Proof. unfold emits. simpl. by rewrite app_assoc. Qed.

Lemma emits_cons e es w : emits (e :: es) w = emits es (emit e w).
Proof. rewrite emit_emits, emits_emits. reflexivity. Qed.

Lemma can_run_walk_eq (p : Command) (parents cogs : list callable) :
  can_run_walk p parents cogs
  = (parents ++ map own_check (p :: ancestors p),
     cog_checks (p :: ancestors p) cogs).
Proof.
  revert parents cogs. induction p as [p Hp | p q Hp IH] using Command_chain_ind;
    intros parents cogs.
  - take_apart p cog parent.
    simpl in Hp. subst parent. unfold own_check. simpl.
    destruct cog as [cog |]; simpl; [| done].
    destruct (cog_check cog); done.
  - take_apart p cog parent.
    simpl in Hp. subst parent. cbn [can_run_walk cmd_cog cmd_parent cmd_check].
    cbn [ancestors cmd_parent].
    destruct cog as [cog |].
    + rewrite IH. cbn. unfold own_check at 2. cbn.
      rewrite <- app_assoc. done.
    + rewrite IH. cbn. unfold own_check at 2. cbn.
      rewrite <- app_assoc. done.
Qed.

Lemma can_run_checks_eq (self : Command) (ctx : Context) :
  can_run_checks self ctx
  = rev (map Function (ctx_client_checks ctx))
    ++ rev (cog_checks (ancestors self) [])
    ++ map own_check (rev (ancestors self))
    ++ [cmd_check self].
Proof.
  unfold can_run_checks.
  take_apart self cog parent.
  cbn [cmd_parent cmd_check ancestors].
  destruct parent as [p |].
  - rewrite can_run_walk_eq. cbn [app].
    rewrite !rev_app_distr, map_rev, <- !app_assoc. done.
  - cbn. rewrite ?app_nil_r. done.
Qed.

(** The cog checks gathered along a chain: each once, and exactly those
    of the cogs of the chain that define [cog_check]. *)
Lemma cog_checks_NoDup (chain : list Command) (cogs : list callable) :
  NoDup cogs -> NoDup (cog_checks chain cogs).
Proof.
  revert cogs. induction chain as [| p chain IH]; intros cogs Hnd; [done |].
  simpl. apply IH.
  destruct (cmd_cog p) as [cog |]; [| done].
  destruct (cog_check cog) as [f |]; [| done].
  case_bool_decide as Hin; [done |].
  apply NoDup_app. split; [done |]. split.
  - intros x Hx Hx'. apply list_elem_of_singleton in Hx'. by subst.
  - apply NoDup_singleton.
Qed.

Lemma cog_checks_elem_of (chain : list Command) (cogs : list callable) c :
  c ∈ cog_checks chain cogs
  <-> c ∈ cogs
      \/ exists p cog f,
           p ∈ chain /\ cmd_cog p = Some cog /\ cog_check cog = Some f
           /\ c = Method cog f.
Proof.
  revert cogs. induction chain as [| p chain IH]; intros cogs; simpl.
  - split; [by left |]. intros [H | (p & _ & _ & H & _)]; [done |].
    by apply elem_of_nil in H.
  - rewrite IH. split.
    + intros [Hc | (q & cog & f & Hq & Hcog & Hf & ->)].
      * destruct (cmd_cog p) as [cog |] eqn:Hcog; [| by left].
        destruct (cog_check cog) as [f |] eqn:Hf; [| by left].
        case_bool_decide as Hin; [by left |].
        apply elem_of_app in Hc as [Hc | Hc]; [by left |].
        apply list_elem_of_singleton in Hc as ->.
        right. exists p, cog, f. split; [left | done].
      * right. exists q, cog, f. split; [by right | done].
    + intros [Hc | (q & cog & f & Hq & Hcog & Hf & ->)].
      * left. destruct (cmd_cog p) as [cog |]; [| done].
        destruct (cog_check cog) as [f |]; [| done].
        case_bool_decide; [done |]. apply elem_of_app. by left.
      * apply elem_of_cons in Hq as [-> | Hq].
        -- left. rewrite Hcog, Hf.
           case_bool_decide as Hin; [done |].
           apply elem_of_app. right. by apply list_elem_of_singleton.
        -- right. exists q, cog, f. done.
Qed.

Section EngineFacts.
Variable user : world -> fn -> list pyarg -> list (string * pyval) -> outcome.

Lemma call_returns w c args kw v :
  apply user w c args kw = Returns v ->
  call user c args kw w = (Ok v, emit (Called c args kw) w).
Proof. intros H. unfold call. by rewrite H. Qed.

Lemma call_throws w c args kw e :
  apply user w c args kw = Throws e ->
  call user c args kw w = (Raise e, emit (Called c args kw) w).
Proof. intros H. unfold call. by rewrite H. Qed.

(** Checks that pass are run through, one call each. *)
Lemma run_checks_app (pre rest : list callable) ctx w :
  passes user pre ctx w = true ->
  run_checks user (pre ++ rest) ctx w
  = run_checks user rest ctx (emits (map (ctx_call ctx) pre) w).
Proof.
  revert w. induction pre as [| c pre IH]; intros w Hpass; simpl.
  - by rewrite emits_nil.
  - simpl in Hpass.
    destruct (apply user w c [ArgContext ctx] []) as [v | e] eqn:Hc; [| done].
    apply andb_true_iff in Hpass as [Hv Hpass].
    unfold bind. rewrite (call_returns _ _ _ _ _ Hc).
    apply negb_true_iff in Hv. rewrite Hv.
    rewrite IH by done. by rewrite emits_cons.
Qed.

(** The three ways the loop over the checks ends. *)
Lemma run_checks_inv (checks : list callable) ctx w r w' :
  run_checks user checks ctx w = (r, w') ->
  match r with
  | Ok true =>
    passes user checks ctx w = true
    /\ w' = emits (map (ctx_call ctx) checks) w
  | Ok false =>
    exists pre c post,
      checks = pre ++ c :: post
      /\ passes user pre ctx w = true
      /\ apply user (emits (map (ctx_call ctx) pre) w) c [ArgContext ctx] []
         = Returns (PyBool false)
      /\ w' = emits (map (ctx_call ctx) (pre ++ [c])) w
  | Raise e =>
    exists pre c post,
      checks = pre ++ c :: post
      /\ passes user pre ctx w = true
      /\ apply user (emits (map (ctx_call ctx) pre) w) c [ArgContext ctx] []
         = Throws e
      /\ w' = emits (map (ctx_call ctx) (pre ++ [c])) w
  end.
Proof.
  revert w. induction checks as [| c checks IH]; intros w Hrun; simpl in Hrun.
  - injection Hrun as <- <-. split; [done |]. by rewrite emits_nil.
  - unfold bind, call in Hrun.
    destruct (apply user w c [ArgContext ctx] []) as [v | e] eqn:Hc.
    + destruct (is_False v) eqn:Hv.
      * injection Hrun as <- <-.
        exists [], c, checks. simpl. rewrite emits_nil.
        destruct v as [| [] | |]; try discriminate Hv. done.
      * apply IH in Hrun. destruct r as [[] | e].
        -- destruct Hrun as [Hpass ->]. simpl. rewrite Hc, Hv. simpl.
           split; [done |]. by rewrite emits_cons.
        -- destruct Hrun as (pre & c' & post & -> & Hpass & Hc' & ->).
           exists (c :: pre), c', post. simpl. rewrite Hc, Hv. simpl.
           rewrite !emits_cons. done.
        -- destruct Hrun as (pre & c' & post & -> & Hpass & Hc' & ->).
           exists (c :: pre), c', post. simpl. rewrite Hc, Hv. simpl.
           rewrite !emits_cons. done.
    + injection Hrun as <- <-.
      exists [], c, checks. simpl. rewrite emits_nil. done.
Qed.

End EngineFacts.

Section EngineProperties.
Variable user : world -> fn -> list pyarg -> list (string * pyval) -> outcome.

(** C1.  The checks [can_run] collects are, in this order: the
    bot-global checks; the [cog_check] of the cogs of the parents, each
    once; the parents' own checks from the root down to the nearest
    parent; and the leaf's own check last.  [can_run] calls them in that
    order, from the first on, and all of them when it returns [True]. *)
Theorem can_run_order (self : Command) (ctx : Context) (w : world) :
  let cogs := cog_checks (ancestors self) [] in
  can_run_checks self ctx
  = rev (map Function (ctx_client_checks ctx))
    ++ rev cogs
    ++ map own_check (rev (ancestors self))
    ++ [cmd_check self]
  /\ NoDup cogs
  /\ (forall c, c ∈ cogs <->
        exists p cog f,
          p ∈ ancestors self /\ cmd_cog p = Some cog
          /\ cog_check cog = Some f /\ c = Method cog f)
  /\ exists evaluated : list callable,
       evaluated `prefix_of` can_run_checks self ctx
       /\ (Command_can_run user self ctx w).2
          = emits (map (ctx_call ctx) evaluated) w
       /\ ((Command_can_run user self ctx w).1 = Ok true ->
           evaluated = can_run_checks self ctx).
Proof.
  intros cogs.
  assert (Hrun : exists evaluated,
    evaluated `prefix_of` can_run_checks self ctx
    /\ (Command_can_run user self ctx w).2
       = emits (map (ctx_call ctx) evaluated) w
    /\ ((Command_can_run user self ctx w).1 = Ok true ->
        evaluated = can_run_checks self ctx)).
  { unfold Command_can_run.
    destruct (run_checks user (can_run_checks self ctx) ctx w) as [r w'] eqn:Hr.
    pose proof (run_checks_inv user _ _ _ _ _ Hr) as Hinv. simpl.
    destruct r as [[] | e].
    - destruct Hinv as [_ ->]. exists (can_run_checks self ctx). done.
    - destruct Hinv as (pre & c & post & Heq & _ & _ & ->).
      exists (pre ++ [c]). split; [| done].
      exists post. rewrite Heq, <- app_assoc. done.
    - destruct Hinv as (pre & c & post & Heq & _ & _ & ->).
      exists (pre ++ [c]). split; [| done].
      exists post. rewrite Heq, <- app_assoc. done. }
  split; [apply can_run_checks_eq |].
  split; [apply cog_checks_NoDup, NoDup_nil_2 |].
  split; [| exact Hrun].
  intros c. unfold cogs. rewrite cog_checks_elem_of. split; [| by right].
  intros [Hnil | H]; [by apply elem_of_nil in Hnil | done].
Qed.

(** C2.  [can_run] returns [False] exactly when one of the checks, all
    those before it having returned something other than [False], returns
    [False] itself; no check after it is called.  Then [invoke] raises
    the [CheckFailure] that names the qualified name of the leaf and calls
    nothing more: it leaves the world as [can_run] left it, so no handler
    is called.  Checks that return anything else ([None] too) pass. *)
Theorem invoke_check_failure (self : Command) (ctx : Context) (w : world) :
  let checks := can_run_checks self ctx in
  (forall v, is_False v = true <-> v = PyBool false)
  /\ (forall w',
        Command_can_run user self ctx w = (Ok false, w') <->
        exists pre c post,
          checks = pre ++ c :: post
          /\ passes user pre ctx w = true
          /\ outcome_of user (emits (map (ctx_call ctx) pre) w) (ctx_call ctx c)
             = Returns (PyBool false)
          /\ w' = emits (map (ctx_call ctx) (pre ++ [c])) w)
  /\ (forall w',
        Command_can_run user self ctx w = (Ok false, w') ->
        Command_invoke user self ctx w
        = (Raise (CheckFailure ("The check functions for "
                                +:+ Command_qualname self +:+ " failed.")),
           w'))
  /\ (Command_can_run user self ctx w
      = (Ok true, emits (map (ctx_call ctx) checks) w)
      <-> passes user checks ctx w = true).
Proof.
  intros checks. split; [| split; [| split]].
  - intros v. split; [| by intros ->].
    destruct v as [| [] | |]; done.
  - intros w'. split.
    + intros Hrun. exact (run_checks_inv user _ _ _ _ _ Hrun).
    + intros (pre & c & post & Heq & Hpass & Hc & ->).
      unfold Command_can_run. fold checks. rewrite Heq.
      rewrite run_checks_app by done. simpl in Hc. simpl.
      unfold bind. rewrite (call_returns _ _ _ _ _ _ Hc). simpl.
      rewrite map_app, <- emits_emits. done.
  - intros w' Hrun. unfold Command_invoke, bind. rewrite Hrun. done.
  - split.
    + intros Hrun. apply (run_checks_inv user _ _ _ _ _ Hrun).
    + intros Hpass. unfold Command_can_run. fold checks.
      rewrite <- (app_nil_r checks) at 1.
      rewrite run_checks_app by done. done.
Qed.

End EngineProperties.

(** On [say repeat] in the guarded cog, with two global checks: the
    list of checks, and the three that are called before the cog's check
    denies. *)
Lemma can_run_order_witness :
  can_run_checks guarded_repeat busy_ctx
  = [Function 31%nat; Function 30%nat;
     Method guarded_cog 20%nat;
     Partial (Function 21%nat) guarded_cog;
     DefaultCheck]
  /\ (Command_can_run denying_user guarded_repeat busy_ctx empty_world).2
     = emits (map (ctx_call busy_ctx)
                  [Function 31%nat; Function 30%nat; Method guarded_cog 20%nat])
             empty_world.
Proof.
  destruct (can_run_order denying_user guarded_repeat busy_ctx empty_world)
    as (Hlist & _ & _ & evaluated & _ & Htrace & _).
  split; [exact Hlist |]. rewrite Htrace.
  assert (Hev : map (ctx_call busy_ctx) evaluated
                = map (ctx_call busy_ctx)
                    [Function 31%nat; Function 30%nat; Method guarded_cog 20%nat]).
  { apply (inj (app (trace empty_world))).
    exact (f_equal trace (eq_sym Htrace)). }
  rewrite Hev. reflexivity.
Defined.

(** On the same invocation: the cog's check returns [False] after the
    two global checks passed, and [invoke] raises. *)
Lemma invoke_check_failure_witness :
  Command_invoke denying_user guarded_repeat busy_ctx empty_world
  = (Raise (CheckFailure "The check functions for say repeat failed."),
     emits (map (ctx_call busy_ctx)
                [Function 31%nat; Function 30%nat; Method guarded_cog 20%nat])
           empty_world).
Proof.
  destruct (invoke_check_failure denying_user guarded_repeat busy_ctx
              empty_world) as (_ & Hdeny & Hraise & _).
  apply Hraise. apply Hdeny.
  exists [Function 31%nat; Function 30%nat], (Method guarded_cog 20%nat),
         [Partial (Function 21%nat) guarded_cog; DefaultCheck].
  repeat split; reflexivity.
Defined.

Lemma invoke_parents_walk_eq (p : Command) (parents : list callable) :
  invoke_parents_walk p parents = parents ++ map own_coro (p :: ancestors p).
Proof.
  revert parents.
  induction p as [p Hp | p q Hp IH] using Command_chain_ind; intros parents.
  - take_apart p cog parent.
    simpl in Hp. subst parent. unfold own_coro. simpl.
    destruct cog; done.
  - take_apart p cog parent.
    simpl in Hp. subst parent.
    cbn [invoke_parents_walk cmd_cog cmd_parent cmd_coro ancestors].
    rewrite IH. cbn. unfold own_coro at 2. cbn.
    destruct cog; rewrite <- app_assoc; done.
Qed.

Section InvokeProperties.
Variable user : world -> fn -> list pyarg -> list (string * pyval) -> outcome.

Lemma run_coros_returns (coros : list callable) ctx w :
  (forall w' c, c ∈ coros ->
     returns (outcome_of user w' (ctx_call ctx c)) = true) ->
  run_coros user coros ctx w = (Ok tt, emits (map (ctx_call ctx) coros) w).
Proof.
  revert w. induction coros as [| c coros IH]; intros w Hret; simpl.
  - by rewrite emits_nil.
  - unfold bind, call.
    pose proof (Hret w c ltac:(left)) as Hc. simpl in Hc.
    destruct (apply user w c [ArgContext ctx] []) as [v | e]; [| done].
    rewrite IH.
    + by rewrite emits_cons.
    + intros w' c' Hc'. apply Hret. by right.
Qed.

Lemma invoke_parents_returns (self : Command) ctx w :
  (forall w' p, p ∈ ancestors self ->
     returns (outcome_of user w' (ctx_call ctx (own_coro p))) = true) ->
  Command_invoke_parents user self ctx w
  = (Ok tt, emits (map (ctx_call ctx) (map own_coro (rev (ancestors self)))) w).
Proof.
  intros Hret. unfold Command_invoke_parents.
  assert (Heq : match cmd_parent self with
                | Some p => invoke_parents_walk p []
                | None => []
                end = map own_coro (ancestors self)).
  { take_apart self cog parent.
    cbn [cmd_parent ancestors]. destruct parent as [p |]; [| reflexivity].
    rewrite invoke_parents_walk_eq. reflexivity. }
  rewrite Heq, <- map_rev. apply run_coros_returns.
  intros w' c Hc. apply list_elem_of_fmap in Hc as (p & -> & Hp).
  apply Hret. apply list_elem_of_In, in_rev, list_elem_of_In in Hp. done.
Qed.

Lemma invoke_parents_list (self : Command) :
  rev match cmd_parent self with
      | Some p => invoke_parents_walk p []
      | None => []
      end = parent_coros self.
Proof.
  unfold parent_coros. rewrite map_rev. f_equal.
  take_apart self cog parent. cbn [cmd_parent ancestors].
  destruct parent as [p |]; [| reflexivity].
  rewrite invoke_parents_walk_eq. reflexivity.
Qed.

Lemma run_coros_all_return (coros : list callable) ctx w :
  all_return user coros ctx w = true ->
  run_coros user coros ctx w = (Ok tt, emits (map (ctx_call ctx) coros) w).
Proof.
  revert w. induction coros as [| c coros IH]; intros w Hall; simpl.
  - by rewrite emits_nil.
  - simpl in Hall. apply andb_true_iff in Hall as [Hc Hall].
    unfold bind, call.
    destruct (apply user w c [ArgContext ctx] []) as [v | e]; [| done].
    rewrite IH by exact Hall. by rewrite emits_cons.
Qed.

(** The first handler that raises stops the loop. *)
Lemma run_coros_first_raise (coros : list callable) ctx w :
  all_return user coros ctx w = false ->
  exists pre c post e,
    coros = pre ++ c :: post
    /\ all_return user pre ctx w = true
    /\ outcome_of user (emits (map (ctx_call ctx) pre) w) (ctx_call ctx c)
       = Throws e
    /\ run_coros user coros ctx w
       = (Raise e, emits (map (ctx_call ctx) (pre ++ [c])) w).
Proof.
  revert w. induction coros as [| c coros IH]; intros w Hall; [done |].
  simpl in Hall.
  destruct (apply user w c [ArgContext ctx] []) as [v | e] eqn:Hc.
  - simpl in Hall. destruct (IH _ Hall) as (pre & c' & post & e & -> & Hpre & He & Hrun).
    exists (c :: pre), c', post, e. split; [done |]. split.
    { simpl. by rewrite Hc. }
    split.
    { cbn [map]. rewrite emits_cons. exact He. }
    cbn [run_coros app]. unfold bind, call. rewrite Hc.
    change (emit (Called c [ArgContext ctx] []) w)
      with (emit (ctx_call ctx c) w).
    rewrite Hrun. cbn [map app]. by rewrite emits_cons.
  - exists [], c, coros, e. split; [done |]. split; [done |]. split.
    { simpl. by rewrite emits_nil. }
    simpl. unfold bind, call. rewrite Hc. reflexivity.
Qed.

(** C3.  When the checks all pass, [invoke] calls the handlers of the
    parents from the root down, each once it is reached and each after
    those above it returned, and nothing else but, in the end, the
    handler of the leaf.  If the handlers of the parents all return,
    every one of them was called, once, before the handler of the leaf,
    whose outcome is that of [invoke].  If one of them raises, [invoke]
    raises with it, and neither the handlers of the parents below it
    nor the handler of the leaf are called. *)
Theorem invoke_parents_before_leaf (self : Command) (ctx : Context)
    (w w1 : world) :
  Command_can_run user self ctx w = (Ok true, w1) ->
  (all_return user (parent_coros self) ctx w1 = true ->
   Command_invoke user self ctx w
   = (match outcome_of user
              (emits (map (ctx_call ctx) (parent_coros self)) w1)
              (leaf_call self ctx) with
      | Returns _ => Ok tt
      | Throws e => Raise e
      end,
      emits (map (ctx_call ctx) (parent_coros self) ++ [leaf_call self ctx])
            w1))
  /\ (all_return user (parent_coros self) ctx w1 = false ->
      exists pre c post e,
        parent_coros self = pre ++ c :: post
        /\ all_return user pre ctx w1 = true
        /\ outcome_of user (emits (map (ctx_call ctx) pre) w1) (ctx_call ctx c)
           = Throws e
        /\ Command_invoke user self ctx w
           = (Raise e, emits (map (ctx_call ctx) (pre ++ [c])) w1)).
Proof.
  intros Hrun. split.
  - intros Hall. unfold Command_invoke, bind. rewrite Hrun. simpl.
    unfold Command_invoke_parents. rewrite invoke_parents_list.
    rewrite (run_coros_all_return _ _ _ Hall).
    set (w2 := emits _ w1).
    unfold leaf_call, call.
    destruct (cmd_cog self) as [cog |]; cbn [outcome_of];
      destruct (apply user w2 _ _ _) as [v | e]; simpl; subst w2;
      rewrite emit_emits, emits_emits; done.
  - intros Hall.
    destruct (run_coros_first_raise _ _ _ Hall)
      as (pre & c & post & e & Hsplit & Hpre & He & Hcoros).
    exists pre, c, post, e. split; [exact Hsplit |]. split; [exact Hpre |].
    split; [exact He |].
    unfold Command_invoke, bind. rewrite Hrun. simpl.
    unfold Command_invoke_parents. rewrite invoke_parents_list.
    rewrite Hcoros. reflexivity.
Qed.

End InvokeProperties.

(** C3 as stated fails: on [tools text upper] the checks all pass, the
    handler of [tools] raises, and the handler of [text], a parent, is
    not called at all. *)
Lemma invoke_root_hook_raises :
  ancestors tools_text_upper = [tools_text; tools]
  /\ exists w1,
       Command_can_run root_hook_user tools_text_upper hi_ctx empty_world
       = (Ok true, w1)
       /\ Command_invoke root_hook_user tools_text_upper hi_ctx empty_world
          = (Raise (UserError 3%nat),
             emit (ctx_call hi_ctx (own_coro tools)) w1)
       /\ ctx_call hi_ctx (own_coro tools_text)
          ∉ trace (Command_invoke root_hook_user tools_text_upper hi_ctx
                     empty_world).2.
Proof.
  split; [reflexivity |]. eexists. split; [reflexivity |].
  split; [reflexivity |].
  apply (bool_decide_unpack _). vm_compute. exact I.
Qed.

(** On [tools text upper message=hi] with handlers that return: the
    handler of [tools] is called with the context, then that of [text],
    then that of [upper] with the message bound by name.  When the
    handler of [upper] raises, the same calls are made. *)
Lemma invoke_parents_before_leaf_witness :
  exists w1,
    Command_can_run quiet_user tools_text_upper hi_ctx empty_world
    = (Ok true, w1)
    /\ Command_invoke quiet_user tools_text_upper hi_ctx empty_world
       = (Ok tt,
          emits [Called (Function 5%nat) [ArgContext hi_ctx] [];
                 Called (Function 6%nat) [ArgContext hi_ctx] [];
                 Called (Function 7%nat) [] [("message", PyStr "hi")]] w1)
    /\ Command_invoke leaf_raising_user tools_text_upper hi_ctx empty_world
       = (Raise (UserError 4%nat),
          emits [Called (Function 5%nat) [ArgContext hi_ctx] [];
                 Called (Function 6%nat) [ArgContext hi_ctx] [];
                 Called (Function 7%nat) [] [("message", PyStr "hi")]] w1).
Proof.
  eexists. split; [reflexivity |]. split.
  - apply (proj1 (invoke_parents_before_leaf quiet_user tools_text_upper
                    hi_ctx empty_world _ eq_refl)).
    reflexivity.
  - apply (proj1 (invoke_parents_before_leaf leaf_raising_user
                    tools_text_upper hi_ctx empty_world _ eq_refl)).
    reflexivity.
Defined.

(** A top-level command: [can_run] collects the bot-global checks and the
    command's own check, whatever its cog. *)
Lemma can_run_checks_root (self : Command) (ctx : Context) :
  cmd_parent self = None ->
  can_run_checks self ctx
  = rev (map Function (ctx_client_checks ctx)) ++ [cmd_check self].
Proof.
  intros Hroot. rewrite can_run_checks_eq.
  take_apart self cog parent.
  simpl in Hroot. subst parent. reflexivity.
Qed.

(** C4 fails on the code.  The top-level command [stop] belongs to a cog
    whose [cog_check] returns [False]; [can_run] does not collect that
    check, and [invoke] runs the handler.  Under a group of the same cog
    the check is collected, and the invocation is refused. *)
Theorem can_run_misses_own_cog :
  cmd_cog guarded_stop = Some guarded_cog
  /\ outcome_of denying_user empty_world
       (ctx_call hi_ctx (Method guarded_cog 20%nat))
     = Returns (PyBool false)
  /\ can_run_checks guarded_stop hi_ctx = [DefaultCheck]
  /\ Command_invoke denying_user guarded_stop hi_ctx empty_world
     = (Ok tt,
        emits [ctx_call hi_ctx DefaultCheck; leaf_call guarded_stop hi_ctx]
              empty_world)
  /\ Command_invoke denying_user guarded_repeat hi_ctx empty_world
     = (Raise (CheckFailure "The check functions for say repeat failed."),
        emits [ctx_call hi_ctx (Method guarded_cog 20%nat)] empty_world).
Proof. repeat split; reflexivity. Qed.

(** ** [Command.__init__] *)

Section InitFacts.
Variable repr : string -> string.
Variable Option_of_ChoiceEnum : pyclass -> Option.
Variable name : string.
Variable coro : pyfunction.


(** The store after a write to the object just allocated. *)
Lemma set_required_alloc (h : heap) (o : Option) b :
  set_required (length h) b (h ++ [o])
  = h ++ [{| opt_name := opt_name o; opt_description := opt_description o;
             opt_type := opt_type o; opt_required := b;
             opt_choices := opt_choices o |}].
Proof.
  unfold set_required.
  rewrite (list_lookup_total_middle h [] o (length h) eq_refl).
  rewrite insert_app_r_alt by lia. rewrite Nat.sub_diag. reflexivity.
Qed.

Lemma set_name_alloc (h : heap) (o : Option) n :
  set_name (length h) n (h ++ [o])
  = h ++ [{| opt_name := n; opt_description := opt_description o;
             opt_type := opt_type o; opt_required := opt_required o;
             opt_choices := opt_choices o |}].
Proof.
  unfold set_name.
  rewrite (list_lookup_total_middle h [] o (length h) eq_refl).
  rewrite insert_app_r_alt by lia. rewrite Nat.sub_diag. reflexivity.
Qed.

(** The clone of [proto], written to as lines 191-195 do, is
    [stored_option p proto], at the first free address. *)
Lemma clone_and_set (h : heap) (p : param) (a : nat) :
  let h1 := (Option_clone a h).2 in
  let h2 := if is_None (param_default p) then set_required (length h) true h1
            else h1 in
  (Option_clone a h).1 = length h
  /\ (if is_None (opt_name (h2 !!! length h))
      then set_name (length h) (Some (param_name p)) h2 else h2)
     = h ++ [stored_option p (h !!! a)].
Proof.
  unfold Option_clone, alloc. simpl. split; [reflexivity |].
  set (proto := h !!! a). unfold stored_option.
  destruct (is_None (param_default p)).
  - rewrite set_required_alloc.
    rewrite (list_lookup_total_middle h [] _ (length h) eq_refl). simpl.
    destruct (opt_name proto) as [n |]; simpl; [done |].
    rewrite set_name_alloc. done.
  - rewrite (list_lookup_total_middle h [] _ (length h) eq_refl).
    destruct proto as [[n |] d t r c]; simpl; [done |].
    rewrite set_name_alloc. done.
Qed.


Implicit Types (p : param) (st : init_state) (h : heap).

(** A required parameter with no valid annotation: the first is skipped,
    a second is an error (lines 168-181). *)
Lemma init_param_unannotated p st h :
  unannotated_required coro p = true ->
  init_param repr Option_of_ChoiceEnum name coro p st h
  = if st_found_self_arg st then (Raise (unannotated_error repr name), h)
    else (Ok {| st_ctx_arg := st_ctx_arg st; st_options := st_options st;
                st_found_self_arg := true |}, h).
Proof.
  unfold unannotated_required, init_param. intros ->.
  destruct (st_found_self_arg st); reflexivity.
Qed.

(** Any other parameter (lines 182-195): the turn succeeds, it only adds
    objects to the store, it binds the context parameter when the
    annotation is a subclass of [Context], and it stores a clone when the
    annotation is an option. *)
Lemma init_param_annotated p st h :
  unannotated_required coro p = false ->
  exists st1 new,
    init_param repr Option_of_ChoiceEnum name coro p st h = (Ok st1, h ++ new)
    /\ st_found_self_arg st1 = st_found_self_arg st
    /\ st_ctx_arg st1
       = match context_arg coro p with
         | Some x => Some x
         | None => st_ctx_arg st
         end
    /\ (forall k, k <> param_name p ->
          dict_get k (st_options st1) = dict_get k (st_options st))
    /\ (forall a, annotation_of coro p = ObjOption a ->
          new = [stored_option p (h !!! a)]
          /\ dict_get (param_name p) (st_options st1) = Some (length h)).
Proof.
  unfold unannotated_required, init_param, context_arg. intros ->.
  destruct (annotation_of coro p) as [| a | c |] eqn:Hann.
  - exists st, []. rewrite app_nil_r. destruct st. done.
  - destruct (clone_and_set h p a) as [Ha Hh]. cbv zeta in Hh.
    destruct (Option_clone a h) as [a' h1] eqn:Hclone.
    simpl in Ha, Hh. subst a'. rewrite Hh.
    eexists _, _. split; [reflexivity |]. simpl.
    split; [done |]. split; [done |]. split.
    + intros k Hk. by apply dict_get_set_ne.
    + intros a0 [= <-]. split; [done |]. apply dict_get_set_eq.
  - destruct (sub_Context c) eqn:Hctx.
    + eexists _, []. rewrite app_nil_r. split; [reflexivity |]. done.
    + destruct (sub_ChoiceEnum c) eqn:Henum.
      * unfold alloc.
        destruct (clone_and_set (h ++ [Option_of_ChoiceEnum c]) p (length h))
          as [Ha Hh]. cbv zeta in Hh.
        destruct (Option_clone (length h) (h ++ [Option_of_ChoiceEnum c]))
          as [a' h1] eqn:Hclone.
        simpl in Ha, Hh. rewrite Ha. rewrite Hh.
        eexists _, _. rewrite <- app_assoc.
        split; [reflexivity |]. simpl.
        split; [done |]. split; [done |]. split.
        -- intros k Hk. by apply dict_get_set_ne.
        -- intros a0 [=].
      * exists st, []. rewrite app_nil_r. destruct st. done.
  - exists st, []. rewrite app_nil_r. destruct st. done.
Qed.


(** A parameter that binds the context has a valid annotation. *)
Lemma context_arg_annotated p x :
  context_arg coro p = Some x -> unannotated_required coro p = false.
Proof.
  unfold context_arg, unannotated_required, valid_annotation.
  destruct (annotation_of coro p) as [| a | c |]; try discriminate.
  destruct (sub_Context c); [| discriminate].
  intros _. rewrite orb_true_r. reflexivity.
Qed.

Lemma last_cons_match {A} (x : A) (l : list A) :
  last (x :: l) = match last l with
                  | Some y => Some y
                  | None => Some x
                  end.
Proof. destruct l as [| y l]; [done |]. rewrite last_cons_cons. by destruct (last (y :: l)) eqn:E; [| apply last_None in E]. Qed.

(** The loop over the parameters: it fails exactly at the second required
    parameter with no valid annotation, and otherwise binds the last
    parameter annotated with a subclass of [Context]. *)
Lemma init_params_outcome (ps : list param) st h :
  let n := (count_unannotated coro ps
            + (if st_found_self_arg st then 1 else 0))%nat in
  exists r new,
    init_params repr Option_of_ChoiceEnum name coro ps st h = (r, h ++ new)
    /\ match r with
       | Ok st' =>
         (n <= 1)%nat
         /\ st_ctx_arg st'
            = match last (omap (context_arg coro) ps) with
              | Some x => Some x
              | None => st_ctx_arg st
              end
       | Raise e => (2 <= n)%nat /\ e = unannotated_error repr name
       end.
Proof.
  revert st h. induction ps as [| p ps IH]; intros st h; cbv zeta.
  - exists (Ok st), []. rewrite app_nil_r. split; [done |].
    unfold count_unannotated. simpl. split; [| done].
    destruct (st_found_self_arg st); lia.
  - unfold count_unannotated. cbn [init_params List.filter omap list_omap].
    destruct (unannotated_required coro p) eqn:Hp.
    + rewrite (init_param_unannotated _ _ _ Hp).
      assert (Hctx : context_arg coro p = None).
      { destruct (context_arg coro p) as [x |] eqn:Hx; [| done].
        apply context_arg_annotated in Hx. congruence. }
      rewrite Hctx. cbn [length].
      destruct (st_found_self_arg st) eqn:Hfound.
      * exists (Raise (unannotated_error repr name)), [].
        rewrite app_nil_r. split; [done |]. split; [lia | done].
      * destruct (IH {| st_ctx_arg := st_ctx_arg st;
                        st_options := st_options st;
                        st_found_self_arg := true |} h)
          as (r & new & Hrun & Hr).
        exists r, new. split; [exact Hrun |].
        unfold count_unannotated in Hr. cbn [st_found_self_arg st_ctx_arg] in Hr.
        destruct r as [st' | e].
        -- destruct Hr as [Hn Hc]. split; [lia | done].
        -- destruct Hr as [Hn He]. split; [lia | done].
    + destruct (init_param_annotated p st h Hp)
        as (st1 & new1 & Hstep & Hfound & Hctx & _).
      rewrite Hstep.
      destruct (IH st1 (h ++ new1)) as (r & new & Hrun & Hr).
      exists r, (new1 ++ new). rewrite app_assoc. split; [exact Hrun |].
      unfold count_unannotated in Hr. rewrite Hfound in Hr.
      destruct r as [st' | e]; [| exact Hr].
      destruct Hr as [Hn Hc]. split; [exact Hn |].
      rewrite Hc, Hctx.
      destruct (context_arg coro p) as [x |]; [| done].
      rewrite last_cons_match.
      destruct (last (omap (context_arg coro) ps)); done.
Qed.

End InitFacts.

Section InitProperties.
Variable repr : string -> string.
Variable Option_of_ChoiceEnum : pyclass -> Option.

(** [Command.__init__] in terms of its loop. *)
Lemma Command_init_eq (coro : pyfunction) (kw : kwargs) (h : heap) :
  truthy (pop (kw_description kw) (fn_doc coro)) = true ->
  exists r h',
    init_params repr Option_of_ChoiceEnum (pop (kw_name kw) (fn_name coro))
      coro (fn_parameters coro)
      {| st_ctx_arg := None; st_options := []; st_found_self_arg := false |} h
    = (r, h')
    /\ match r with
       | Raise e =>
         Command_init repr Option_of_ChoiceEnum coro kw h = (Raise e, h')
       | Ok st =>
         match st_ctx_arg st with
         | None =>
           Command_init repr Option_of_ChoiceEnum coro kw h
           = (Raise (ValueError "One argument must be type-hinted slash.Context"),
              h')
         | Some x =>
           exists cmd,
             Command_init repr Option_of_ChoiceEnum coro kw h = (Ok cmd, h')
             /\ cmd_ctx_arg cmd = Some x
             /\ cmd_options cmd = st_options st
         end
       end.
Proof.
  intros Hdescr. unfold Command_init. rewrite Hdescr. simpl.
  destruct (init_params _ _ _ _ _ _ _) as [[st | e] h'] eqn:Hrun.
  - exists (Ok st), h'. split; [done |].
    destruct (st_ctx_arg st) as [x |] eqn:Hx; [| done].
    eexists. split; [reflexivity |]. done.
  - exists (Raise e), h'. done.
Qed.

(** C7.  When two or more required parameters have no valid annotation
    (none of an [Option] instance, a subclass of [ChoiceEnum], a subclass
    of [Context]), construction raises: the [TypeError] about the
    annotation, unless the description is missing, which is reported
    first.  A single such parameter is let through: with at most one,
    no [TypeError] is raised. *)
Theorem init_unannotated_required (coro : pyfunction) (kw : kwargs) (h : heap) :
  let name := pop (kw_name kw) (fn_name coro) in
  let n := count_unannotated coro (fn_parameters coro) in
  let r := (Command_init repr Option_of_ChoiceEnum coro kw h).1 in
  ((2 <= n)%nat ->
   exists e, r = Raise e
     /\ (truthy (pop (kw_description kw) (fn_doc coro)) = true ->
         e = unannotated_error repr name))
  /\ ((n <= 1)%nat -> forall msg, r <> Raise (TypeError msg)).
Proof.
  intros name n r.
  destruct (truthy (pop (kw_description kw) (fn_doc coro))) eqn:Hdescr.
  - destruct (Command_init_eq coro kw h Hdescr) as (r' & h' & Hrun & Hinit).
    destruct (init_params_outcome repr Option_of_ChoiceEnum name coro
                (fn_parameters coro)
                {| st_ctx_arg := None; st_options := [];
                   st_found_self_arg := false |} h)
      as (r'' & new & Hrun' & Hout).
    fold name in Hrun. rewrite Hrun in Hrun'. injection Hrun' as <- ->.
    cbn [st_found_self_arg] in Hout. fold n in Hout.
    destruct r' as [st | e].
    + destruct Hout as [Hn _]. split; [lia |]. intros _ msg. subst r.
      destruct (st_ctx_arg st).
      * destruct Hinit as (cmd & -> & _). done.
      * rewrite Hinit. done.
    + destruct Hout as [Hn ->]. subst r. rewrite Hinit. split.
      * intros _. eexists. split; [reflexivity | done].
      * lia.
  - subst r. unfold Command_init. rewrite Hdescr. simpl. split.
    + intros _. eexists. split; [reflexivity | done].
    + intros _ msg. done.
Qed.

(** C5, as the constructor has it.  Provided the description is there
    and at most one required parameter lacks a valid annotation:
    construction raises the [ValueError] about the context when no
    parameter is annotated with a subclass of [Context]; when one or
    several are, it succeeds and binds the last of them, in the order of
    declaration, as the context parameter. *)
Theorem init_binds_last_context (coro : pyfunction) (kw : kwargs) (h : heap) :
  truthy (pop (kw_description kw) (fn_doc coro)) = true ->
  (count_unannotated coro (fn_parameters coro) <= 1)%nat ->
  match last (omap (context_arg coro) (fn_parameters coro)) with
  | None =>
    (Command_init repr Option_of_ChoiceEnum coro kw h).1
    = Raise (ValueError "One argument must be type-hinted slash.Context")
  | Some x =>
    exists cmd,
      (Command_init repr Option_of_ChoiceEnum coro kw h).1 = Ok cmd
      /\ cmd_ctx_arg cmd = Some x
  end.
Proof.
  intros Hdescr Hn.
  destruct (Command_init_eq coro kw h Hdescr) as (r' & h' & Hrun & Hinit).
  destruct (init_params_outcome repr Option_of_ChoiceEnum
              (pop (kw_name kw) (fn_name coro)) coro (fn_parameters coro)
              {| st_ctx_arg := None; st_options := [];
                 st_found_self_arg := false |} h)
    as (r'' & new & Hrun' & Hout).
  rewrite Hrun in Hrun'. injection Hrun' as <- ->.
  cbn [st_found_self_arg st_ctx_arg] in Hout.
  destruct r' as [st | e].
  - destruct Hout as [_ Hctx]. rewrite Hctx in Hinit.
    destruct (last (omap (context_arg coro) (fn_parameters coro))) as [x |].
    + destruct Hinit as (cmd & -> & Hx & _). exists cmd. done.
    + rewrite Hinit. done.
  - destruct Hout as [Hn' _]. lia.
Qed.

End InitProperties.

Section InitOptions.
Variable repr : string -> string.
Variable Option_of_ChoiceEnum : pyclass -> Option.
Variable name : string.
Variable coro : pyfunction.

(** A parameter annotated with an option has a valid annotation. *)
Lemma option_annotated (p : param) (a : nat) :
  annotation_of coro p = ObjOption a -> unannotated_required coro p = false.
Proof. unfold unannotated_required. intros ->. reflexivity. Qed.

(** The loop over the parameters only adds to the store; for each
    parameter annotated with an option it stores, under the name of the
    parameter, a new object that ends as [stored_option] says. *)
Lemma init_params_options (ps : list param) (st st' : init_state)
    (h h' : heap) :
  init_params repr Option_of_ChoiceEnum name coro ps st h = (Ok st', h') ->
  NoDup (param_name <$> ps) ->
  (exists new, h' = h ++ new)
  /\ (forall k, k ∉ param_name <$> ps ->
        dict_get k (st_options st') = dict_get k (st_options st))
  /\ (forall p a,
        p ∈ ps -> annotation_of coro p = ObjOption a -> (a < length h)%nat ->
        exists a',
          dict_get (param_name p) (st_options st') = Some a'
          /\ (length h <= a')%nat
          /\ h' !! a' = Some (stored_option p (h !!! a))).
Proof.
  revert st h. induction ps as [| p0 ps IH]; intros st h Hrun Hnames.
  - simpl in Hrun. injection Hrun as <- <-. split; [| split].
    + exists []. by rewrite app_nil_r.
    + done.
    + intros p a Hp. by apply elem_of_nil in Hp.
  - cbn [init_params] in Hrun. rewrite fmap_cons in Hnames.
    apply NoDup_cons in Hnames as [Hp0 Hnames].
    destruct (unannotated_required coro p0) eqn:Hreq.
    + rewrite (init_param_unannotated _ _ _ _ _ _ _ Hreq) in Hrun.
      destruct (st_found_self_arg st); [discriminate |].
      destruct (IH _ _ Hrun Hnames) as (Hheap & Hother & Hopt).
      split; [exact Hheap |]. split.
      * intros k Hk. rewrite fmap_cons in Hk.
        apply not_elem_of_cons in Hk as [_ Hk]. by rewrite Hother.
      * intros p a Hp Hann Ha.
        apply elem_of_cons in Hp as [-> | Hp]; [| by apply Hopt].
        apply option_annotated in Hann. congruence.
    + destruct (init_param_annotated repr Option_of_ChoiceEnum name coro
                  p0 st h Hreq)
        as (st1 & new1 & Hstep & _ & _ & Hother1 & Hopt1).
      rewrite Hstep in Hrun.
      destruct (IH _ _ Hrun Hnames) as ([new ->] & Hother & Hopt).
      split; [| split].
      * exists (new1 ++ new). by rewrite app_assoc.
      * intros k Hk. rewrite fmap_cons in Hk.
        apply not_elem_of_cons in Hk as [Hne Hk].
        rewrite Hother by done. by apply Hother1.
      * intros p a Hp Hann Ha.
        apply elem_of_cons in Hp as [-> | Hp].
        -- destruct (Hopt1 a Hann) as [-> Hget].
           exists (length h). rewrite Hother by done.
           split; [exact Hget |]. split; [lia |].
           rewrite <- app_assoc. apply list_lookup_middle. done.
        -- destruct (Hopt p a Hp Hann) as (a' & Hget & Hfresh & Hobj).
           { rewrite length_app. lia. }
           exists a'. split; [exact Hget |].
           rewrite length_app in Hfresh. split; [lia |].
           rewrite Hobj. f_equal. f_equal.
           apply lookup_total_app_l. done.
Qed.

End InitOptions.

Section CloneProperties.
Variable repr : string -> string.
Variable Option_of_ChoiceEnum : pyclass -> Option.

(** C6, as the constructor has it.  For a parameter annotated with an
    [Option] instance that exists when the command is built, construction
    stores under the parameter's name a new object, not one of those that
    existed; it has the fields of the prototype, but [required] is true
    when the parameter has no default (and as in the prototype when it
    has one), and the name is the parameter's exactly when the prototype
    left it unset.  Every object that existed, the prototype too, is left
    as it was. *)
Theorem init_stores_clone (coro : pyfunction) (kw : kwargs) (h h' : heap)
    (cmd : Command) (p : param) (a : nat) (proto : Option) :
  Command_init repr Option_of_ChoiceEnum coro kw h = (Ok cmd, h') ->
  NoDup (param_name <$> fn_parameters coro) ->
  p ∈ fn_parameters coro ->
  annotation_of coro p = ObjOption a ->
  h !! a = Some proto ->
  (exists a',
     dict_get (param_name p) (cmd_options cmd) = Some a'
     /\ (length h <= a')%nat
     /\ h' !! a' = Some (stored_option p proto))
  /\ (forall b o, h !! b = Some o -> h' !! b = Some o).
Proof.
  intros Hinit Hnames Hp Hann Hproto.
  unfold Command_init in Hinit.
  destruct (negb (truthy (pop (kw_description kw) (fn_doc coro))));
    [discriminate |].
  cbv zeta in Hinit.
  destruct (init_params _ _ _ _ _ _ _) as [[st | e] h1] eqn:Hrun;
    [| discriminate].
  destruct (st_ctx_arg st); [| discriminate].
  injection Hinit as <- <-. cbn [cmd_options].
  destruct (init_params_options _ _ _ _ _ _ _ _ _ Hrun Hnames)
    as ([new ->] & _ & Hopt).
  split.
  - destruct (Hopt p a Hp Hann) as (a' & Hget & Hfresh & Hobj).
    { by apply lookup_lt_Some in Hproto. }
    exists a'. split; [exact Hget |]. split; [exact Hfresh |].
    rewrite Hobj. f_equal. f_equal.
    by apply list_lookup_total_correct.
  - intros b o Hb. by apply lookup_app_l_Some.
Qed.

End CloneProperties.

(** C5 as stated fails: a handler with two parameters annotated with
    [Context] is accepted; the second is the one bound. *)
Lemma init_two_contexts_accepted :
  length (omap (context_arg transfer_coro) (fn_parameters transfer_coro)) = 2%nat
  /\ exists cmd,
       (Command_init py_repr choice_option transfer_coro no_kwargs demo_heap).1
       = Ok cmd
       /\ cmd_ctx_arg cmd = Some ("other", Context_class).
Proof. split; [reflexivity |]. eexists. split; reflexivity. Qed.

(** On [transfer(ctx, other)]: the second parameter is bound. *)
Lemma init_binds_last_context_witness :
  truthy (pop (kw_description no_kwargs) (fn_doc transfer_coro)) = true
  /\ (count_unannotated transfer_coro (fn_parameters transfer_coro) <= 1)%nat
  /\ exists cmd,
       (Command_init py_repr choice_option transfer_coro no_kwargs demo_heap).1
       = Ok cmd
       /\ cmd_ctx_arg cmd = Some ("other", Context_class).
Proof.
  assert (Hn : (count_unannotated transfer_coro (fn_parameters transfer_coro)
                <= 1)%nat) by (vm_compute; lia).
  split; [reflexivity |]. split; [exact Hn |].
  exact (init_binds_last_context py_repr choice_option transfer_coro
           no_kwargs demo_heap eq_refl Hn).
Defined.

(** A second bare required parameter is refused, a single one is not:
    [count(self, ctx, n)] against [ping(self, ctx)]. *)
Lemma init_unannotated_required_witness :
  (2 <= count_unannotated count_coro (fn_parameters count_coro))%nat
  /\ (count_unannotated ping_coro (fn_parameters ping_coro) <= 1)%nat
  /\ (exists e,
        (Command_init py_repr choice_option count_coro no_kwargs demo_heap).1
        = Raise e
        /\ e = unannotated_error py_repr "count")
  /\ forall msg,
       (Command_init py_repr choice_option ping_coro no_kwargs demo_heap).1
       <> Raise (TypeError msg).
Proof.
  assert (H2 : (2 <= count_unannotated count_coro (fn_parameters count_coro))%nat)
    by (vm_compute; lia).
  assert (H1 : (count_unannotated ping_coro (fn_parameters ping_coro) <= 1)%nat)
    by (vm_compute; lia).
  split; [exact H2 |]. split; [exact H1 |]. split.
  - destruct (init_unannotated_required py_repr choice_option count_coro
                no_kwargs demo_heap) as [Hfail _].
    destruct (Hfail H2) as (e & He & Hmsg).
    exists e. split; [exact He |]. exact (Hmsg eq_refl).
  - destruct (init_unannotated_required py_repr choice_option ping_coro
                no_kwargs demo_heap) as [_ Hpass].
    exact (Hpass H1).
Defined.

(** C6 as stated fails: the prototype [msg_opt] has [required=True]; on
    a parameter that has a default, the stored clone is required all the
    same. *)
Lemma init_required_kept_with_default :
  param_default message_default_param = Some (PyStr "hi")
  /\ exists cmd h' a',
       Command_init py_repr choice_option shout_coro no_kwargs demo_heap
       = (Ok cmd, h')
       /\ dict_get "message" (cmd_options cmd) = Some a'
       /\ opt_required <$> h' !! a' = Some true.
Proof.
  split; [reflexivity |]. eexists _, _, _.
  split; [reflexivity |]. split; reflexivity.
Qed.

(** On [echo(ctx, first: msg_opt, second: msg_opt)]: each parameter gets
    a new object of its own, named after it, and [msg_opt] is as it
    was. *)
Lemma init_stores_clone_witness :
  NoDup (param_name <$> fn_parameters echo_coro)
  /\ first_param ∈ fn_parameters echo_coro
  /\ second_param ∈ fn_parameters echo_coro
  /\ annotation_of echo_coro first_param = ObjOption 0%nat
  /\ annotation_of echo_coro second_param = ObjOption 0%nat
  /\ demo_heap !! 0%nat = Some msg_opt
  /\ exists cmd h',
       Command_init py_repr choice_option echo_coro no_kwargs demo_heap
       = (Ok cmd, h')
       /\ (exists a1,
             dict_get "first" (cmd_options cmd) = Some a1
             /\ (1 <= a1)%nat
             /\ h' !! a1 = Some (stored_option first_param msg_opt))
       /\ (exists a2,
             dict_get "second" (cmd_options cmd) = Some a2
             /\ (1 <= a2)%nat
             /\ h' !! a2 = Some (stored_option second_param msg_opt))
       /\ h' !! 0%nat = Some msg_opt.
Proof.
  assert (Hnames : NoDup (param_name <$> fn_parameters echo_coro)).
  { apply (bool_decide_unpack _). vm_compute. exact I. }
  assert (Hfirst : first_param ∈ fn_parameters echo_coro).
  { right. left. }
  assert (Hsecond : second_param ∈ fn_parameters echo_coro).
  { right. right. left. }
  split; [exact Hnames |]. split; [exact Hfirst |]. split; [exact Hsecond |].
  split; [reflexivity |]. split; [reflexivity |]. split; [reflexivity |].
  destruct (Command_init py_repr choice_option echo_coro no_kwargs demo_heap)
    as [[cmd | e] h'] eqn:Hinit; [| discriminate Hinit].
  exists cmd, h'. split; [reflexivity |].
  destruct (init_stores_clone py_repr choice_option echo_coro no_kwargs
              demo_heap h' cmd first_param 0%nat msg_opt
              Hinit Hnames Hfirst eq_refl eq_refl) as [Hclone1 Hkept].
  destruct (init_stores_clone py_repr choice_option echo_coro no_kwargs
              demo_heap h' cmd second_param 0%nat msg_opt
              Hinit Hnames Hsecond eq_refl eq_refl) as [Hclone2 _].
  split; [exact Hclone1 |]. split; [exact Hclone2 |].
  exact (Hkept 0%nat msg_opt eq_refl).
Defined.

(** ** [ComponentCallback] *)

Section ComponentProperties.
Variable user : world -> fn -> list pyarg -> list (string * pyval) -> outcome.
Variable repr_callback : nat -> string.

Lemma same_member_refl (cbs : list ComponentCallback) (a : nat) :
  same_member cbs a a = true.
Proof. unfold same_member. by rewrite bool_decide_eq_true_2. Qed.

(** Once discarded, a callback is no member of the set, and no event is
    offered to it. *)
Lemma discard_not_elem_of (self : nat) (w : world) :
  self ∉ comp_callbacks (discard self w).
Proof.
  unfold discard. simpl. rewrite list_elem_of_filter.
  intros [Hsame _]. by rewrite same_member_refl in Hsame.
Qed.

Lemma offered_elem_of (w : world) (ctx : ComponentContext) (a : nat) :
  a ∈ offered user w ctx -> a ∈ comp_callbacks w.
Proof. unfold offered. rewrite list_elem_of_filter. tauto. Qed.

(** The set compares callbacks by their handler and matcher, which a
    use leaves as they are. *)
Lemma same_member_used (cbs : list ComponentCallback) (self : nat)
    (cb : ComponentCallback) (n : Z) (b : nat) :
  cbs !! self = Some cb ->
  same_member (<[self := used n cb]> cbs) self b = same_member cbs self b.
Proof.
  intros Hcb. pose proof (lookup_lt_Some _ _ _ Hcb) as Hlt.
  pose proof (list_lookup_total_correct _ _ _ Hcb) as Hself.
  unfold same_member.
  rewrite (list_lookup_total_insert_eq _ _ _ Hlt).
  destruct (decide (self = b)) as [<- | Hne].
  - rewrite (list_lookup_total_insert_eq _ _ _ Hlt). rewrite Hself. done.
  - rewrite (list_lookup_total_insert_ne _ _ _ _ Hne). rewrite Hself. done.
Qed.

(** C9.  A callback with [max_uses = 1] whose check passes: [invoke]
    sets [max_uses] to zero, takes the callback, and it alone, out of
    [bot.comp_callbacks] and dispatches [component_callback_deregister],
    and only then calls the handler, in the world [w1] where all this is
    done and nothing else.  Afterwards an event is offered to the
    callbacks that were registered beside it and whose matcher takes the
    event, and to no other: not to the callback itself, and to none at
    all when no such other callback is there. *)
Theorem invoke_deregisters_before_handler (self : nat)
    (ctx : ComponentContext) (w : world) (cb : ComponentCallback) (v : pyval) :
  callbacks w !! self = Some cb ->
  cb_max_uses cb = Some 1 ->
  apply user w (cb_check cb) [ArgComponentContext ctx] [] = Returns v ->
  is_False v = false ->
  exists w1,
    trace w1
    = trace w ++ [Called (cb_check cb) [ArgComponentContext ctx] [];
                  Dispatched "component_callback_deregister" self]
    /\ callbacks w1 = <[self := used 1 cb]> (callbacks w)
    /\ cb_max_uses (used 1 cb) = Some 0
    /\ comp_callbacks w1
       = filter (fun b => same_member (callbacks w) self b = false)
                (comp_callbacks w)
    /\ (self ∉ comp_callbacks w1)
    /\ ComponentCallback_invoke user repr_callback self ctx w
       = (match outcome_of user w1 (component_call cb ctx) with
          | Returns _ => Ok tt
          | Throws e => Raise e
          end,
          emit (component_call cb ctx) w1)
    /\ (forall ctx' b,
          b ∈ offered user (emit (component_call cb ctx) w1) ctx'
          <-> b ∈ comp_callbacks w
              /\ same_member (callbacks w) self b = false
              /\ matcher_outcome user (emit (component_call cb ctx) w1)
                   (cb_matcher (callbacks w !!! b)) ctx'
                 = Returns (PyBool true))
    /\ (forall ctx',
          (forall b, b ∈ comp_callbacks w ->
             same_member (callbacks w) self b = false ->
             matcher_outcome user (emit (component_call cb ctx) w1)
               (cb_matcher (callbacks w !!! b)) ctx'
             <> Returns (PyBool true)) ->
          offered user (emit (component_call cb ctx) w1) ctx' = []).
Proof.
  intros Hcb Hmax Hcheck Hpass.
  pose proof (list_lookup_total_correct _ _ _ Hcb) as Hload.
  pose proof (lookup_lt_Some _ _ _ Hcb) as Hlt.
  set (wa := emit (Called (cb_check cb) [ArgComponentContext ctx] []) w).
  set (wb := {| trace := trace wa;
                callbacks := <[self := used 1 cb]> (callbacks wa);
                comp_callbacks := comp_callbacks wa |}).
  exists (emit (Dispatched "component_callback_deregister" self)
               (discard self wb)).
  set (w1 := emit _ (discard self wb)).
  assert (Hcb1 : callbacks w1 !! self = Some (used 1 cb)).
  { simpl. by apply list_lookup_insert_eq. }
  assert (Hnotin : self ∉ comp_callbacks w1).
  { apply (discard_not_elem_of self wb). }
  assert (Hset : comp_callbacks w1
                 = filter (fun b => same_member (callbacks w) self b = false)
                          (comp_callbacks w)).
  { simpl. apply list_filter_iff. intros b.
    by rewrite (same_member_used _ _ _ _ _ Hcb). }
  assert (Hoffered : forall ctx' b,
    b ∈ offered user (emit (component_call cb ctx) w1) ctx'
    <-> b ∈ comp_callbacks w
        /\ same_member (callbacks w) self b = false
        /\ matcher_outcome user (emit (component_call cb ctx) w1)
             (cb_matcher (callbacks w !!! b)) ctx'
           = Returns (PyBool true)).
  { intros ctx' b. unfold offered. rewrite list_elem_of_filter.
    change (comp_callbacks (emit (component_call cb ctx) w1))
      with (comp_callbacks w1).
    rewrite Hset, list_elem_of_filter.
    change (callbacks (emit (component_call cb ctx) w1))
      with (<[self := used 1 cb]> (callbacks w)).
    split.
    - intros (Hm & Hsame & Hb). split; [exact Hb |]. split; [exact Hsame |].
      rewrite list_lookup_total_insert_ne in Hm; [exact Hm |].
      intros <-. by rewrite same_member_refl in Hsame.
    - intros (Hb & Hsame & Hm). split; [| done].
      rewrite list_lookup_total_insert_ne; [exact Hm |].
      intros <-. by rewrite same_member_refl in Hsame. }
  split; [| split; [reflexivity | split; [| split; [exact Hset
    | split; [exact Hnotin | split; [| split; [exact Hoffered |]]]]]]].
  - simpl. rewrite <- app_assoc. reflexivity.
  - unfold used. simpl. rewrite Hmax. reflexivity.
  - unfold ComponentCallback_invoke, bind, load. rewrite Hload.
    rewrite (call_returns _ _ _ _ _ _ Hcheck). rewrite Hpass.
    fold wa. change (callbacks wa) with (callbacks w). rewrite Hload, Hmax.
    unfold set_max_uses. change (callbacks wa) with (callbacks w).
    rewrite Hload. change (1 - 1) with 0. cbn [Z.leb Z.compare].
    unfold ComponentCallback_deregister.
    replace {| cb_coro := cb_coro cb; cb_check := cb_check cb;
               cb_cog := cb_cog cb; cb_matcher := cb_matcher cb;
               cb_max_uses := Some 0 |} with (used 1 cb)
      by (unfold used; rewrite Hmax; reflexivity).
    fold wb. fold w1.
    rewrite (list_lookup_total_correct _ _ _ Hcb1).
    unfold component_call, call. cbn [cb_cog cb_coro used outcome_of apply].
    destruct (cb_cog cb) as [cog |]; cbn [outcome_of apply];
      match goal with
      | |- context [user ?x _ _ _] => change x with w1
      end;
      destruct (user w1 _ _ _) as [v' | e]; reflexivity.
  - intros ctx' Hnone. apply elem_of_nil_inv. intros b Hb.
    apply Hoffered in Hb as (Hb & Hsame & Hm). by apply (Hnone b).
Qed.

End ComponentProperties.

(** C9 as stated fails: with a second callback bound to [confirm]
    beside the one that may be used once, the click is offered to both;
    the first is invoked and deregistered, and the same click still
    matches an active callback, the second. *)
Lemma other_callback_still_matches :
  cb_max_uses confirm_callback = Some 1
  /\ offered quiet_user shared_world confirm_click = [0%nat; 1%nat]
  /\ exists w',
       ComponentCallback_invoke quiet_user object_repr 0%nat confirm_click
         shared_world
       = (Ok tt, w')
       /\ comp_callbacks w' = [1%nat]
       /\ offered quiet_user w' confirm_click = [1%nat].
Proof.
  split; [reflexivity |]. split; [reflexivity |].
  eexists. split; [reflexivity |]. split; reflexivity.
Qed.

(** On a click of [confirm]: the event is offered to the callback; the
    invocation deregisters it, then calls its handler; the same click is
    offered to no callback any more, none other being registered. *)
Lemma invoke_deregisters_before_handler_witness :
  callbacks confirm_world !! 0%nat = Some confirm_callback
  /\ cb_max_uses confirm_callback = Some 1
  /\ offered quiet_user confirm_world confirm_click = [0%nat]
  /\ exists w',
       ComponentCallback_invoke quiet_user object_repr 0%nat confirm_click
         confirm_world
       = (Ok tt, w')
       /\ trace w'
          = [Called DefaultCheck [ArgComponentContext confirm_click] [];
             Dispatched "component_callback_deregister" 0%nat;
             Called (Function 9%nat) [ArgComponentContext confirm_click] []]
       /\ comp_callbacks w' = []
       /\ offered quiet_user w' confirm_click = [].
Proof.
  split; [reflexivity |]. split; [reflexivity |]. split; [reflexivity |].
  destruct (invoke_deregisters_before_handler quiet_user object_repr 0%nat
              confirm_click confirm_world confirm_callback (PyBool true)
              eq_refl eq_refl eq_refl eq_refl)
    as (w1 & Htrace & _ & _ & Hset & _ & Hinvoke & _ & Hnone).
  exists (emit (component_call confirm_callback confirm_click) w1).
  split; [exact Hinvoke |]. split; [| split].
  - simpl. rewrite Htrace. reflexivity.
  - change (comp_callbacks w1 = []). rewrite Hset. reflexivity.
  - apply Hnone. intros b Hb Hsame.
    apply elem_of_cons in Hb as [-> | Hb]; [| by apply elem_of_nil in Hb].
    by rewrite same_member_refl in Hsame.
Defined.

(** * Further properties *)

(** ** [Command.qualname] *)

Lemma append_assoc (a b c : string) : (a +:+ b) +:+ c = a +:+ b +:+ c.
Proof.
  induction a as [| x a IH]; [done |].
  change (String x ((a +:+ b) +:+ c) = String x (a +:+ b +:+ c)).
  by rewrite IH.
Qed.

Lemma join_snoc (sep : string) (names : list string) (n : string) :
  names <> [] -> join sep (names ++ [n]) = join sep names +:+ sep +:+ n.
Proof.
  induction names as [| m names IH]; [done |]. intros _.
  destruct names as [| m' names]; [done |].
  change (join sep ((m :: m' :: names) ++ [n]))
    with (m +:+ sep +:+ join sep ((m' :: names) ++ [n])).
  rewrite IH by done.
  change (join sep (m :: m' :: names))
    with (m +:+ sep +:+ join sep (m' :: names)).
  by rewrite !append_assoc.
Qed.

(** X1.  The qualified name of a command is the names of its parents,
    from the root down, and its own name, joined by single spaces. *)
Theorem qualname_join (self : Command) :
  Command_qualname self
  = join " " (map cmd_name (rev (ancestors self)) ++ [cmd_name self]).
Proof.
  induction self as [c Hc | c p Hc IH] using Command_chain_ind.
  - take_apart c cog parent. simpl in Hc. subst parent. reflexivity.
  - take_apart c cog parent. simpl in Hc. subst parent.
    cbn [Command_qualname ancestors cmd_parent cmd_name].
    rewrite IH. cbn [rev]. rewrite map_app. cbn [map].
    rewrite <- join_snoc; [reflexivity |].
    by destruct (map cmd_name (rev (ancestors p))).
Qed.

(** ** [Command.add_perm] and [Command.perms_dict] *)

Lemma dict_get_set {K V : Type} `{EqDecision K} (k k' : K) (v : V)
    (d : pydict K V) :
  dict_get k' (dict_set k v d)
  = if decide (k = k') then Some v else dict_get k' d.
Proof.
  destruct (decide (k = k')) as [<- | Hne].
  - apply dict_get_set_eq.
  - by apply dict_get_set_ne.
Qed.

(** Writing the value a key has leaves the dictionary as it is. *)
Lemma dict_set_same {K V : Type} `{EqDecision K} (k : K) (v : V)
    (d : pydict K V) :
  dict_get k d = Some v -> dict_set k v d = d.
Proof.
  induction d as [| [k' v'] d IH]; simpl; [done |].
  destruct (decide (k = k')) as [-> | Hne].
  - by intros [= ->].
  - intros Hget. by rewrite IH.
Qed.

Lemma dict_get_elem_of {K V : Type} `{EqDecision K} (k : K) (v : V)
    (d : pydict K V) :
  dict_wf d -> (k, v) ∈ d -> dict_get k d = Some v.
Proof.
  unfold dict_wf. induction d as [| [k' v'] d IH]; simpl; intros Hwf Hin.
  - by apply elem_of_nil in Hin.
  - apply NoDup_cons in Hwf as [Hk' Hwf].
    apply elem_of_cons in Hin as [[= -> ->] | Hin].
    + by rewrite decide_True.
    + destruct (decide (k = k')) as [-> | Hne]; [| by apply IH].
      exfalso. apply Hk'. apply list_elem_of_fmap. by exists (k', v).
Qed.

(** [d.update(d.items())] is [d]. *)
Lemma dict_update_self {K V : Type} `{EqDecision K} (d : pydict K V) :
  dict_wf d -> dict_update d d = d.
Proof.
  intros Hwf. unfold dict_update.
  assert (Hsub : forall items : list (K * V),
    (forall kv, kv ∈ items -> kv ∈ d) ->
    foldl (fun acc kv => dict_set kv.1 kv.2 acc) d items = d).
  { induction items as [| [k v] items IH]; intros Hin; simpl; [done |].
    rewrite dict_set_same.
    - apply IH. intros kv Hkv. apply Hin. by right.
    - apply dict_get_elem_of; [done |]. apply Hin. left. }
  by apply Hsub.
Qed.

Section AddPerm.
Variable value : ApplicationCommandPermissionType -> Z.

(** X2.  [add_perm] raises [ValueError] in two cases only: no type is
    given for a bare [discord.Object]; or, the type being settled, no
    guild is given for a target that has none of its own (a user that is
    no member, a bare object).  In every other case it records the
    override and touches nothing but [permissions]: every other
    attribute of the command is as it was. *)
Theorem add_perm_outcome (self : Command) (t : target) (perm : bool)
    (guild_id : option (option Z))
    (type : option ApplicationCommandPermissionType) :
  match resolved_type t type, resolved_guild t guild_id with
  | None, _ =>
    type = None /\ (exists i, t = TObject i)
    /\ Command_add_perm self t perm guild_id type
       = Raise (ValueError "Must specify type if target is not a discord.py model")
  | Some _, None =>
    guild_id = None /\ (exists i, t = TUser i \/ t = TObject i)
    /\ Command_add_perm self t perm guild_id type
       = Raise (ValueError "Must specify guild_id if target is not a guilded object")
  | Some ty, Some g =>
    exists cmd',
      Command_add_perm self t perm guild_id type = Ok cmd'
      /\ cmd_permissions cmd'
         = dict_set g (dict_set (target_id t, ty) perm (overrides self g))
             (cmd_permissions self)
      /\ cmd_name cmd' = cmd_name self /\ cmd_parent cmd' = cmd_parent self
      /\ cmd_check cmd' = cmd_check self /\ cmd_coro cmd' = cmd_coro self
      /\ cmd_cog cmd' = cmd_cog self /\ cmd_id cmd' = cmd_id self
      /\ cmd_options cmd' = cmd_options self
      /\ cmd_description cmd' = cmd_description self
      /\ cmd_guild_id cmd' = cmd_guild_id self
      /\ cmd_default_permission cmd' = cmd_default_permission self
      /\ cmd_ctx_arg cmd' = cmd_ctx_arg self
  end.
Proof.
  destruct type as [ty |], guild_id as [g |], t as [i g' | i g' | i | i];
    simpl; try (eexists; repeat split; reflexivity);
    repeat split; eauto.
Qed.


(** What a successful [add_perm] did. *)
Lemma add_perm_inv (self cmd' : Command) (t : target) (perm : bool)
    (guild_id : option (option Z))
    (type : option ApplicationCommandPermissionType) :
  Command_add_perm self t perm guild_id type = Ok cmd' ->
  exists g ty,
    resolved_guild t guild_id = Some g /\ resolved_type t type = Some ty
    /\ cmd_permissions cmd'
       = dict_set g (dict_set (target_id t, ty) perm (overrides self g))
           (cmd_permissions self)
    /\ cmd_id cmd' = cmd_id self.
Proof.
  destruct type as [ty |], guild_id as [g |], t as [i g' | i g' | i | i];
    simpl; intros [= <-]; eexists _, _; repeat split.
Qed.

Lemma dict_wf_nil {K V : Type} : dict_wf (@nil (K * V)).
Proof. apply NoDup_nil_2. Qed.

Lemma overrides_wf (self : Command) (g : option Z) :
  perms_wf (cmd_permissions self) -> dict_wf (overrides self g).
Proof.
  intros [_ Hwf]. unfold overrides.
  destruct (dict_get g (cmd_permissions self)) as [d |] eqn:Hg; simpl.
  - by apply (Hwf g).
  - apply dict_wf_nil.
Qed.

(** What a guild sees of a target: its own override, or else the global
    one. *)
Lemma perms_dict_lookup (self : Command) (g : option Z) (oid : Z)
    (ty : ApplicationCommandPermissionType) :
  (forall x y, value x = value y -> x = y) ->
  perms_wf (cmd_permissions self) ->
  perm_lookup (Command_perms_dict value self g) oid (value ty)
  = match dict_get (oid, ty) (overrides self g) with
    | Some b => Some b
    | None => dict_get (oid, ty) (overrides self None)
    end.
Proof.
  intros Hinj Hwf. unfold Command_perms_dict.
  rewrite (perm_lookup_entries _ _ _ _ _ Hinj).
  apply dict_get_update. by apply overrides_wf.
Qed.

(** X3.  After [add_perm] the view [perms_dict] gives of the guild
    addressed holds the new permission for the target and, for every
    other target, what it held before.  An override for one guild leaves
    the views of all other guilds as they were; a global override
    ([guild_id=None]) reaches every guild that has no override of its own
    for the target.  The dictionaries stay well formed. *)
Theorem add_perm_then_perms_dict (self cmd' : Command) (t : target)
    (perm : bool) (guild_id : option (option Z))
    (type : option ApplicationCommandPermissionType) :
  (forall x y, value x = value y -> x = y) ->
  perms_wf (cmd_permissions self) ->
  Command_add_perm self t perm guild_id type = Ok cmd' ->
  exists g ty,
    resolved_guild t guild_id = Some g /\ resolved_type t type = Some ty
    /\ perms_wf (cmd_permissions cmd')
    /\ perm_lookup (Command_perms_dict value cmd' g) (target_id t) (value ty)
       = Some perm
    /\ (forall oid ty',
          (oid, ty') <> (target_id t, ty) ->
          perm_lookup (Command_perms_dict value cmd' g) oid (value ty')
          = perm_lookup (Command_perms_dict value self g) oid (value ty'))
    /\ (g <> None ->
        forall g', g' <> g ->
          Command_perms_dict value cmd' g' = Command_perms_dict value self g')
    /\ (g = None ->
        forall g',
          dict_get (target_id t, ty) (overrides self g') = None ->
          perm_lookup (Command_perms_dict value cmd' g') (target_id t) (value ty)
          = Some perm).
Proof.
  intros Hinj Hwf Hadd.
  destruct (add_perm_inv _ _ _ _ _ _ Hadd) as (g & ty & Hg & Hty & Hperms & Hid).
  exists g, ty. split; [done |]. split; [done |].
  assert (Hov : forall g',
    overrides cmd' g'
    = if decide (g = g') then dict_set (target_id t, ty) perm (overrides self g)
      else overrides self g').
  { intros g'. unfold overrides at 1. rewrite Hperms, dict_get_set.
    destruct (decide (g = g')); done. }
  assert (Hwf' : perms_wf (cmd_permissions cmd')).
  { destruct Hwf as [Hwf1 Hwf2]. split.
    - rewrite Hperms. by apply dict_set_wf.
    - intros g' d. rewrite Hperms, dict_get_set.
      destruct (decide (g = g')) as [<- | _].
      + intros [= <-]. apply dict_set_wf. by apply overrides_wf.
      + apply Hwf2. }
  split; [exact Hwf' |]. split; [| split; [| split]].
  - rewrite perms_dict_lookup by done. rewrite Hov, decide_True by done.
    by rewrite dict_get_set_eq.
  - intros oid ty' Hne. rewrite !perms_dict_lookup by done.
    rewrite !Hov. rewrite decide_True by done.
    rewrite dict_get_set_ne by congruence.
    destruct (dict_get (oid, ty') (overrides self g)); [done |].
    destruct (decide (g = None)) as [-> | _]; [| done].
    by rewrite dict_get_set_ne by congruence.
  - intros Hgn g' Hg'. unfold Command_perms_dict. rewrite Hid.
    fold (overrides cmd' None) (overrides cmd' g')
         (overrides self None) (overrides self g').
    rewrite !Hov. rewrite !decide_False by congruence. done.
  - intros -> g' Hnone. rewrite perms_dict_lookup by done.
    rewrite !Hov.
    destruct (decide (None = g')) as [<- | _].
    + by rewrite dict_get_set_eq.
    + rewrite Hnone. rewrite decide_True by done. by rewrite dict_get_set_eq.
Qed.

(** X4.  A guild that has no overrides of its own is shown the global
    overrides, one entry each and in their order; so is [guild_id=None]. *)
Theorem perms_dict_without_overrides (self : Command) (g : option Z) :
  dict_wf (overrides self None) ->
  dict_get g (cmd_permissions self) = None \/ g = None ->
  Command_perms_dict value self g
  = {| pr_id := cmd_id self;
       pr_permissions := map (entry_of value) (overrides self None) |}.
Proof.
  intros Hwf Hg. unfold Command_perms_dict.
  fold (overrides self None) (overrides self g). f_equal. f_equal.
  destruct Hg as [Hg | ->].
  - unfold overrides at 2. rewrite Hg. reflexivity.
  - by apply dict_update_self.
Qed.

End AddPerm.

(** On [stop]: the role 7 of the guild 100 is allowed globally; the guild
    100 sees it, and so does the guild 200. *)
Lemma add_perm_then_perms_dict_witness :
  (forall x y, wire_value x = wire_value y -> x = y)
  /\ perms_wf (cmd_permissions (plain_command 4%nat DefaultCheck "stop" None))
  /\ exists cmd',
       Command_add_perm (plain_command 4%nat DefaultCheck "stop" None)
         (TRole 7 100) true (Some None) None = Ok cmd'
       /\ perm_lookup (Command_perms_dict wire_value cmd' None) 7 1 = Some true
       /\ perm_lookup (Command_perms_dict wire_value cmd' (Some 200)) 7 1
          = Some true.
Proof.
  assert (Hinj : forall x y, wire_value x = wire_value y -> x = y).
  { intros [] []; simpl; congruence. }
  assert (Hwf : perms_wf (cmd_permissions
                            (plain_command 4%nat DefaultCheck "stop" None))).
  { split; [apply NoDup_nil_2 | intros g d [=]]. }
  split; [exact Hinj |]. split; [exact Hwf |].
  destruct (Command_add_perm (plain_command 4%nat DefaultCheck "stop" None)
              (TRole 7 100) true (Some None) None) as [cmd' | e] eqn:Hadd;
    [| discriminate Hadd].
  exists cmd'. split; [reflexivity |].
  destruct (add_perm_then_perms_dict wire_value _ cmd' _ _ _ _ Hinj Hwf Hadd)
    as (g & ty & Hg & Hty & _ & Hhere & _ & _ & Hglobal).
  injection Hg as <-. injection Hty as <-.
  split; [exact Hhere |]. exact (Hglobal eq_refl (Some 200) eq_refl).
Defined.

(** On [stop], whose only guild with overrides is 100: the guild 200 is
    shown the global override. *)
Lemma perms_dict_without_overrides_witness :
  dict_wf (overrides stop_command None)
  /\ dict_get (Some 200) (cmd_permissions stop_command) = None
  /\ Command_perms_dict wire_value stop_command (Some 200)
     = {| pr_id := None;
          pr_permissions :=
            [{| pe_id := 7; pe_type := 1; pe_permission := true |}] |}.
Proof.
  assert (Hwf : dict_wf (overrides stop_command None)).
  { apply (bool_decide_unpack _). vm_compute. exact I. }
  split; [exact Hwf |]. split; [reflexivity |].
  exact (perms_dict_without_overrides wire_value stop_command (Some 200) Hwf
           (or_introl eq_refl)).
Defined.

(** ** Exceptions in checks and handlers *)

Section EngineExceptions.
Variable user : world -> fn -> list pyarg -> list (string * pyval) -> outcome.

Lemma passes_app (l1 l2 : list callable) ctx w :
  passes user (l1 ++ l2) ctx w
  = passes user l1 ctx w
    && passes user l2 ctx (emits (map (ctx_call ctx) l1) w).
Proof.
  revert w. induction l1 as [| c l1 IH]; intros w; simpl.
  - by rewrite emits_nil.
  - destruct (apply user w c [ArgContext ctx] []) as [v | e]; [| done].
    rewrite IH, emits_cons. by rewrite andb_assoc.
Qed.

(** X5.  [can_run] raises exactly when a check raises, all those before
    it having passed: it raises with that exception, having called the
    checks up to that one and no more.  [invoke] then raises the same
    exception without calling any handler: it leaves the world as the
    check left it. *)
Theorem invoke_check_raises (self : Command) (ctx : Context) (w : world) :
  (forall e w',
     Command_can_run user self ctx w = (Raise e, w')
     <-> exists pre c post,
           can_run_checks self ctx = pre ++ c :: post
           /\ passes user pre ctx w = true
           /\ outcome_of user (emits (map (ctx_call ctx) pre) w)
                (ctx_call ctx c)
              = Throws e
           /\ w' = emits (map (ctx_call ctx) (pre ++ [c])) w)
  /\ (forall pre c post e,
        can_run_checks self ctx = pre ++ c :: post ->
        passes user pre ctx w = true ->
        outcome_of user (emits (map (ctx_call ctx) pre) w) (ctx_call ctx c)
        = Throws e ->
        Command_invoke user self ctx w
        = (Raise e, emits (map (ctx_call ctx) (pre ++ [c])) w)).
Proof.
  assert (Hraise : forall pre c post e,
    can_run_checks self ctx = pre ++ c :: post ->
    passes user pre ctx w = true ->
    outcome_of user (emits (map (ctx_call ctx) pre) w) (ctx_call ctx c)
    = Throws e ->
    Command_can_run user self ctx w
    = (Raise e, emits (map (ctx_call ctx) (pre ++ [c])) w)).
  { intros pre c post e Hsplit Hpass Hc. unfold Command_can_run.
    rewrite Hsplit, run_checks_app by done. simpl. unfold bind.
    simpl in Hc. rewrite (call_throws _ _ _ _ _ _ Hc).
    rewrite map_app, <- emits_emits. done. }
  split.
  - intros e w'. split.
    + intros Hrun. exact (run_checks_inv user _ _ _ _ _ Hrun).
    + intros (pre & c & post & Hsplit & Hpass & Hc & ->).
      by apply (Hraise pre c post).
  - intros pre c post e Hsplit Hpass Hc.
    unfold Command_invoke, bind.
    by rewrite (Hraise pre c post e Hsplit Hpass Hc).
Qed.

(** The closures of [BaseCallback] refuse the cog that [can_run] binds
    to the check of a parent. *)
Lemma closure_check_with_cog (w : world) (chk : callable) (cog : Cog)
    (ctx : Context) :
  chk = DefaultCheck \/ (exists f, chk = AsyncCheck f) ->
  exists msg,
    apply user w (Partial chk cog) [ArgContext ctx] [] = Throws (TypeError msg).
Proof. intros [-> | [f ->]]; eexists; reflexivity. Qed.

(** X6.  A parent that has a cog and whose check is one of the closures
    of [BaseCallback] (no check was given, or a plain function was)
    makes every invocation below it fail: its check is called with the
    cog and the context, which the closure does not take.  [can_run]
    never returns [True], [invoke] never returns, and when the checks
    before that one pass, [invoke] raises the [TypeError]. *)
Theorem cog_parent_needs_coroutine_check (self p : Command) (cog : Cog)
    (ctx : Context) (w : world) :
  p ∈ ancestors self ->
  cmd_cog p = Some cog ->
  cmd_check p = DefaultCheck \/ (exists f, cmd_check p = AsyncCheck f) ->
  (Command_can_run user self ctx w).1 <> Ok true
  /\ (Command_invoke user self ctx w).1 <> Ok tt
  /\ exists pre post,
       can_run_checks self ctx = pre ++ Partial (cmd_check p) cog :: post
       /\ (passes user pre ctx w = true ->
           exists msg,
             Command_invoke user self ctx w
             = (Raise (TypeError msg),
                emits (map (ctx_call ctx) (pre ++ [Partial (cmd_check p) cog]))
                      w)).
Proof.
  intros Hp Hcog Hchk.
  assert (Hin : Partial (cmd_check p) cog ∈ can_run_checks self ctx).
  { rewrite can_run_checks_eq. rewrite !elem_of_app. right. right. left.
    apply list_elem_of_fmap. exists p. split.
    - unfold own_check. by rewrite Hcog.
    - apply list_elem_of_In. apply -> in_rev. by apply list_elem_of_In. }
  apply list_elem_of_split in Hin as (pre & post & Hsplit).
  assert (Hnot : (Command_can_run user self ctx w).1 <> Ok true).
  { unfold Command_can_run.
    destruct (run_checks user (can_run_checks self ctx) ctx w) as [r w'] eqn:Hr.
    simpl. intros ->. apply run_checks_inv in Hr as [Hpass _].
    rewrite Hsplit, passes_app in Hpass.
    apply andb_true_iff in Hpass as [_ Hpass]. simpl in Hpass.
    destruct (closure_check_with_cog (emits (map (ctx_call ctx) pre) w)
                _ cog ctx Hchk) as [msg Hmsg].
    simpl in Hmsg. by rewrite Hmsg in Hpass. }
  split; [exact Hnot |]. split.
  - unfold Command_invoke, bind.
    destruct (Command_can_run user self ctx w) as [[[] | e] w'] eqn:Hr;
      simpl in *; [done | done | done].
  - exists pre, post. split; [exact Hsplit |]. intros Hpass.
    destruct (closure_check_with_cog (emits (map (ctx_call ctx) pre) w)
                _ cog ctx Hchk) as [msg Hmsg].
    exists msg. unfold Command_invoke, bind, Command_can_run.
    rewrite Hsplit, run_checks_app by done. simpl.
    unfold bind. rewrite (call_throws _ _ _ _ _ _ Hmsg).
    rewrite map_app, <- emits_emits. done.
Qed.

Lemma run_coros_app (pre rest : list callable) ctx w :
  (forall w' c, c ∈ pre ->
     returns (outcome_of user w' (ctx_call ctx c)) = true) ->
  run_coros user (pre ++ rest) ctx w
  = run_coros user rest ctx (emits (map (ctx_call ctx) pre) w).
Proof.
  revert w. induction pre as [| c pre IH]; intros w Hret; simpl.
  - by rewrite emits_nil.
  - unfold bind, call.
    pose proof (Hret w c ltac:(left)) as Hc. simpl in Hc.
    destruct (apply user w c [ArgContext ctx] []) as [v | e]; [| done].
    rewrite IH.
    + by rewrite emits_cons.
    + intros w' c' Hc'. apply Hret. by right.
Qed.

(** X7.  When the handler of a parent raises, those of the parents above
    it having returned, [invoke] raises with it: the handlers of the
    parents below and the handler of the leaf are not called. *)
Theorem invoke_parent_raises (self : Command) (ctx : Context) (w w1 : world)
    (pre post : list callable) (c : callable) (e : exn) :
  Command_can_run user self ctx w = (Ok true, w1) ->
  map own_coro (rev (ancestors self)) = pre ++ c :: post ->
  (forall w' c', c' ∈ pre ->
     returns (outcome_of user w' (ctx_call ctx c')) = true) ->
  outcome_of user (emits (map (ctx_call ctx) pre) w1) (ctx_call ctx c)
  = Throws e ->
  Command_invoke user self ctx w
  = (Raise e, emits (map (ctx_call ctx) (pre ++ [c])) w1).
Proof.
  intros Hrun Hsplit Hpre Hc. unfold Command_invoke, bind.
  rewrite Hrun. simpl. unfold Command_invoke_parents.
  assert (Heq : rev match cmd_parent self with
                    | Some p => invoke_parents_walk p []
                    | None => []
                    end = pre ++ c :: post).
  { rewrite <- Hsplit, map_rev. f_equal.
    take_apart self cog parent. cbn [cmd_parent ancestors].
    destruct parent as [p |]; [| reflexivity].
    rewrite invoke_parents_walk_eq. reflexivity. }
  rewrite Heq, run_coros_app by done. simpl. unfold bind.
  simpl in Hc. rewrite (call_throws _ _ _ _ _ _ Hc).
  rewrite map_app, <- emits_emits. done.
Qed.

End EngineExceptions.

(** On [say repeat] with two global checks, of which the second to be
    called raises: the cog's check and the handlers are not reached. *)
Lemma invoke_check_raises_witness :
  can_run_checks guarded_repeat busy_ctx
  = [Function 31%nat] ++ Function 30%nat
    :: [Method guarded_cog 20%nat; Partial (Function 21%nat) guarded_cog;
        DefaultCheck]
  /\ Command_invoke raising_user guarded_repeat busy_ctx empty_world
     = (Raise (UserError 1%nat),
        emits (map (ctx_call busy_ctx) [Function 31%nat; Function 30%nat])
              empty_world).
Proof.
  split; [reflexivity |].
  exact (proj2 (invoke_check_raises raising_user guarded_repeat busy_ctx
                  empty_world)
           [Function 31%nat] (Function 30%nat)
           [Method guarded_cog 20%nat; Partial (Function 21%nat) guarded_cog;
            DefaultCheck]
           (UserError 1%nat) eq_refl eq_refl eq_refl).
Defined.

(** On [say repeat] where [say] is in a cog and has no check: the
    invocation does not return. *)
Lemma cog_parent_needs_coroutine_check_witness :
  cog_say ∈ ancestors cog_repeat
  /\ cmd_cog cog_say = Some guarded_cog
  /\ cmd_check cog_say = DefaultCheck
  /\ (Command_invoke quiet_user cog_repeat hi_ctx empty_world).1 <> Ok tt.
Proof.
  assert (Hin : cog_say ∈ ancestors cog_repeat) by left.
  split; [exact Hin |]. split; [reflexivity |]. split; [reflexivity |].
  exact (proj1 (proj2 (cog_parent_needs_coroutine_check quiet_user cog_repeat
                         cog_say guarded_cog hi_ctx empty_world Hin eq_refl
                         (or_introl eq_refl)))).
Defined.

(** On [say repeat] where the handler of [say] raises: the handler of
    [repeat] is not called. *)
Lemma invoke_parent_raises_witness :
  let w1 := emits [ctx_call hi_ctx DefaultCheck; ctx_call hi_ctx DefaultCheck]
                  empty_world in
  Command_can_run failing_hook_user repeat hi_ctx empty_world = (Ok true, w1)
  /\ Command_invoke failing_hook_user repeat hi_ctx empty_world
     = (Raise (UserError 2%nat),
        emits [ctx_call hi_ctx (Function 1%nat)] w1).
Proof.
  split; [reflexivity |].
  apply (invoke_parent_raises failing_hook_user repeat hi_ctx empty_world _
           [] [] (Function 1%nat) (UserError 2%nat)).
  - reflexivity.
  - reflexivity.
  - intros w' c' Hc'. by apply elem_of_nil in Hc'.
  - reflexivity.
Defined.

(** ** More on [ComponentCallback] *)

Section ComponentMore.
Variable user : world -> fn -> list pyarg -> list (string * pyval) -> outcome.
Variable repr_callback : nat -> string.

(** X8.  When the check of a component callback returns [False], or
    raises, [invoke] raises (the [CheckFailure] that names the callback,
    or the exception of the check) and does nothing else: no use is
    spent, the callback stays registered, nothing is dispatched and the
    handler is not called. *)
Theorem component_check_refuses (self : nat) (ctx : ComponentContext)
    (w : world) (cb : ComponentCallback) (e : exn) :
  callbacks w !! self = Some cb ->
  outcome_of user w (Called (cb_check cb) [ArgComponentContext ctx] [])
  = Returns (PyBool false)
  /\ e = CheckFailure ("The check function for " +:+ repr_callback self
                       +:+ " failed.")
  \/ outcome_of user w (Called (cb_check cb) [ArgComponentContext ctx] [])
     = Throws e ->
  exists w',
    ComponentCallback_invoke user repr_callback self ctx w = (Raise e, w')
    /\ trace w' = trace w ++ [Called (cb_check cb) [ArgComponentContext ctx] []]
    /\ callbacks w' = callbacks w
    /\ comp_callbacks w' = comp_callbacks w.
Proof.
  intros Hcb Hcheck.
  pose proof (list_lookup_total_correct _ _ _ Hcb) as Hload.
  exists (emit (Called (cb_check cb) [ArgComponentContext ctx] []) w).
  split; [| done].
  unfold ComponentCallback_invoke, bind, load. rewrite Hload.
  simpl in Hcheck. destruct Hcheck as [[Hfalse ->] | Hthrow].
  - by rewrite (call_returns _ _ _ _ _ _ Hfalse).
  - by rewrite (call_throws _ _ _ _ _ _ Hthrow).
Qed.

(** The world in which the handler of the callback at [self] is called,
    [checked] being the world after the check passed: one use is spent,
    and the callback is deregistered when none is left. *)
Lemma invoke_passed (self : nat) (ctx : ComponentContext) (w : world)
    (cb : ComponentCallback) (v : pyval) :
  callbacks w !! self = Some cb ->
  apply user w (cb_check cb) [ArgComponentContext ctx] [] = Returns v ->
  is_False v = false ->
  let checked := emit (Called (cb_check cb) [ArgComponentContext ctx] []) w in
  let spent :=
    {| trace := trace checked;
       callbacks := <[self := used 1 cb]> (callbacks w);
       comp_callbacks := comp_callbacks w |} in
  let w1 :=
    match cb_max_uses cb with
    | None => checked
    | Some n =>
      if (n - 1 <=? 0)%Z
      then emit (Dispatched "component_callback_deregister" self)
                (discard self spent)
      else spent
    end in
  ComponentCallback_invoke user repr_callback self ctx w
  = (match outcome_of user w1 (component_call cb ctx) with
     | Returns _ => Ok tt
     | Throws e => Raise e
     end,
     emit (component_call cb ctx) w1)
  /\ callbacks w1 !! self = Some (used 1 cb).
Proof.
  intros Hcb Hcheck Hpass checked spent w1.
  pose proof (list_lookup_total_correct _ _ _ Hcb) as Hload.
  pose proof (lookup_lt_Some _ _ _ Hcb) as Hlt.
  assert (Hused : callbacks w1 !! self = Some (used 1 cb)).
  { subst w1. destruct (cb_max_uses cb) as [n |] eqn:Hmax.
    - destruct (n - 1 <=? 0)%Z; cbn [callbacks emit discard spent];
        by apply list_lookup_insert_eq.
    - cbn [callbacks emit checked]. rewrite Hcb. f_equal. unfold used.
      rewrite Hmax. destruct cb. simpl in Hmax. by subst. }
  split; [| exact Hused].
  pose proof (list_lookup_total_correct _ _ _ Hused) as Hload1.
  assert (Hhandler :
    bind (load self) (fun cb1 =>
     match cb_cog cb1 with
     | Some cog =>
       bind (call user (Function (cb_coro cb1))
               (ArgCog cog :: ArgComponentContext ctx
                :: map ArgValue (ctx_values ctx)) []) (fun _ => ret tt)
     | None =>
       bind (call user (Function (cb_coro cb1))
               (ArgComponentContext ctx :: map ArgValue (ctx_values ctx)) [])
            (fun _ => ret tt)
     end) w1
    = (match outcome_of user w1 (component_call cb ctx) with
       | Returns _ => Ok tt
       | Throws e => Raise e
       end, emit (component_call cb ctx) w1)).
  { unfold bind, load. rewrite Hload1.
    unfold component_call, call. cbn [cb_cog cb_coro used].
    destruct (cb_cog cb) as [cog |]; cbn [outcome_of apply];
      destruct (user w1 _ _ _) as [v' | e]; reflexivity. }
  rewrite <- Hhandler.
  unfold ComponentCallback_invoke. unfold bind at 1 2. unfold load at 1.
  rewrite Hload. rewrite (call_returns _ _ _ _ _ _ Hcheck). rewrite Hpass.
  fold checked. unfold bind at 1. unfold load at 1.
  change (callbacks checked) with (callbacks w). rewrite Hload.
  unfold bind at 1. subst w1.
  destruct (cb_max_uses cb) as [n |] eqn:Hmax.
  - unfold bind at 1. unfold set_max_uses.
    change (callbacks checked) with (callbacks w). rewrite Hload.
    replace {| cb_coro := cb_coro cb; cb_check := cb_check cb;
               cb_cog := cb_cog cb; cb_matcher := cb_matcher cb;
               cb_max_uses := Some (n - 1) |} with (used 1 cb)
      by (unfold used; rewrite Hmax; reflexivity).
    fold spent. destruct (n - 1 <=? 0)%Z; reflexivity.
  - reflexivity.
Qed.


(** X9.  When the check passes, [invoke] spends one use before it calls
    the handler, whether the handler then returns or raises: [max_uses],
    when set, is one less.  The callback is deregistered, and the event
    dispatched, exactly when no use is left ([max_uses] was 1 or less);
    otherwise, and when [max_uses] is [None], the set of registered
    callbacks is as it was and nothing is dispatched. *)
Theorem invoke_spends_one_use (self : nat) (ctx : ComponentContext)
    (w : world) (cb : ComponentCallback) (v : pyval) :
  callbacks w !! self = Some cb ->
  apply user w (cb_check cb) [ArgComponentContext ctx] [] = Returns v ->
  is_False v = false ->
  let w' := (ComponentCallback_invoke user repr_callback self ctx w).2 in
  let check := Called (cb_check cb) [ArgComponentContext ctx] [] in
  callbacks w' !! self = Some (used 1 cb)
  /\ match cb_max_uses cb with
     | Some n =>
       if decide (n <= 1)
       then (self ∉ comp_callbacks w')
            /\ trace w'
               = trace w ++ [check;
                             Dispatched "component_callback_deregister" self;
                             component_call cb ctx]
       else comp_callbacks w' = comp_callbacks w
            /\ trace w' = trace w ++ [check; component_call cb ctx]
     | None =>
       comp_callbacks w' = comp_callbacks w
       /\ callbacks w' = callbacks w
       /\ trace w' = trace w ++ [check; component_call cb ctx]
     end.
Proof.
  intros Hcb Hcheck Hpass.
  destruct (invoke_passed self ctx w cb v Hcb Hcheck Hpass) as [Hinvoke Hused].
  cbv zeta in Hinvoke, Hused. cbv zeta. rewrite Hinvoke. cbn [snd].
  split; [exact Hused |].
  destruct (cb_max_uses cb) as [n |].
  - destruct (decide (n <= 1)) as [Hn | Hn].
    + rewrite (proj2 (Z.leb_le (n - 1) 0)) by lia. split.
      * apply (discard_not_elem_of self).
      * simpl. rewrite <- !app_assoc. reflexivity.
    + rewrite (proj2 (Z.leb_gt (n - 1) 0)) by lia. split; [reflexivity |].
      simpl. rewrite <- !app_assoc. reflexivity.
  - split; [reflexivity |]. split; [reflexivity |].
    simpl. rewrite <- !app_assoc. reflexivity.
Qed.

(** X10.  A callback bound to a button matches an event exactly when the
    button is not a LINK button and the event carries its [custom_id]: a
    callback bound to a LINK button, which has no [custom_id], matches no
    event. *)
Theorem button_callback_matches (style : ButtonStyle) (label : option string)
    (emoji : option emoji_arg) (custom_id url : option string)
    (disabled : bool) (b : Button) (coro : fn) (check : option pyfunction)
    (max_uses : option Z) (w : world) (ctx : ComponentContext) :
  Button_init style label emoji custom_id url disabled = Ok b ->
  matcher_outcome user w
    (cb_matcher (ComponentCallback_init coro (MButton b) check max_uses)) ctx
  = Returns (PyBool (bool_decide (style <> LINK
                                  /\ custom_id = Some (ctx_custom_id ctx)))).
Proof.
  intros Hinit. unfold Button_init in Hinit.
  assert (Hid : btn_custom_id b = custom_id
                /\ (style = LINK -> custom_id = None)).
  { destruct (decide (style = LINK)) as [-> | Hstyle].
    - destruct custom_id as [c |]; [discriminate |]. simpl in Hinit.
      destruct (truthy url); [| discriminate]. simpl in Hinit.
      destruct (is_None label && is_None emoji); [discriminate |].
      injection Hinit as <-. done.
    - destruct (truthy custom_id); [| discriminate]. simpl in Hinit.
      destruct url as [u |]; [discriminate |]. simpl in Hinit.
      destruct (is_None label && is_None emoji); [discriminate |].
      injection Hinit as <-. done. }
  destruct Hid as [Hid Hlink].
  cbn [ComponentCallback_init cb_matcher matcher_outcome]. rewrite Hid.
  f_equal. f_equal. apply bool_decide_ext. split.
  - intros <-. split; [| done]. intros Hs. by specialize (Hlink Hs).
  - intros [_ ->]. done.
Qed.

End ComponentMore.

(** On a callback whose check returns [False]: the use is not spent. *)
Lemma component_check_refuses_witness :
  callbacks guarded_world !! 0%nat = Some guarded_callback
  /\ exists w',
       ComponentCallback_invoke denying_user object_repr 0%nat confirm_click
         guarded_world
       = (Raise (CheckFailure "The check function for <Object id=0> failed."),
          w')
       /\ callbacks w' = [guarded_callback]
       /\ comp_callbacks w' = [0%nat].
Proof.
  split; [reflexivity |].
  destruct (component_check_refuses denying_user object_repr 0%nat
              confirm_click guarded_world guarded_callback
              (CheckFailure "The check function for <Object id=0> failed.")
              eq_refl (or_introl (conj eq_refl eq_refl)))
    as (w' & Hinvoke & _ & Hcbs & Hset).
  exists w'. split; [exact Hinvoke |]. split; [exact Hcbs | exact Hset].
Defined.

(** On a callback with three uses: after the first, two are left and it
    is still registered. *)
Lemma invoke_spends_one_use_witness :
  let w' := (ComponentCallback_invoke quiet_user object_repr 0%nat
               confirm_click vote_world).2 in
  callbacks vote_world !! 0%nat = Some vote_callback
  /\ cb_max_uses <$> callbacks w' !! 0%nat = Some (Some 2)
  /\ comp_callbacks w' = [0%nat].
Proof.
  split; [reflexivity |].
  destruct (invoke_spends_one_use quiet_user object_repr 0%nat confirm_click
              vote_world vote_callback (PyBool true) eq_refl eq_refl eq_refl)
    as [Hused [Hset _]].
  split; [| exact Hset].
  cbv zeta in Hused. rewrite Hused. reflexivity.
Defined.

(** On a LINK button and on a button with the id [confirm]. *)
Lemma button_callback_matches_witness :
  (exists b,
     Button_init LINK (Some "Docs") None None (Some "https://example.org") false
     = Ok b
     /\ matcher_outcome quiet_user empty_world
          (cb_matcher (ComponentCallback_init 9%nat (MButton b) None None))
          confirm_click
        = Returns (PyBool false))
  /\ exists b,
       Button_init PRIMARY (Some "Yes") None (Some "confirm") None false = Ok b
       /\ matcher_outcome quiet_user empty_world
            (cb_matcher (ComponentCallback_init 9%nat (MButton b) None None))
            confirm_click
          = Returns (PyBool true).
Proof.
  split.
  - eexists. split; [reflexivity |].
    exact (button_callback_matches quiet_user LINK (Some "Docs") None None
             (Some "https://example.org") false _ 9%nat None None empty_world
             confirm_click eq_refl).
  - eexists. split; [reflexivity |].
    exact (button_callback_matches quiet_user PRIMARY (Some "Yes") None
             (Some "confirm") None false _ 9%nat None None empty_world
             confirm_click eq_refl).
Defined.

(** ** The options [Command.__init__] collects *)

(** Writing to a key that is not there appends it. *)
Lemma dict_set_fresh {K V : Type} `{EqDecision K} (k : K) (v : V)
    (d : pydict K V) :
  k ∉ d.*1 -> dict_set k v d = d ++ [(k, v)].
Proof.
  induction d as [| [k' v'] d IH]; simpl; intros Hk; [done |].
  apply not_elem_of_cons in Hk as [Hne Hk].
  rewrite decide_False by done. by rewrite IH.
Qed.

Section InitOrder.
Variable repr : string -> string.
Variable Option_of_ChoiceEnum : pyclass -> Option.
Variable name : string.
Variable coro : pyfunction.

(** One turn of the loop on a parameter that is not skipped: it stores
    an option exactly for an option parameter, at a new address. *)
Lemma init_param_stores (p : param) (st : init_state) (h : heap) :
  unannotated_required coro p = false ->
  exists st1 new,
    init_param repr Option_of_ChoiceEnum name coro p st h = (Ok st1, h ++ new)
    /\ if is_option_param coro p
       then exists a',
              (length h <= a')%nat
              /\ st_options st1 = dict_set (param_name p) a' (st_options st)
              /\ (h ++ new) !! a'
                 = Some (stored_option p
                           (prototype Option_of_ChoiceEnum coro h p))
       else st_options st1 = st_options st.
Proof.
  unfold unannotated_required, init_param, is_option_param, prototype.
  intros ->.
  destruct (annotation_of coro p) as [| a | c |] eqn:Hann.
  - exists st, []. rewrite app_nil_r. by destruct st.
  - destruct (clone_and_set h p a) as [Ha Hh]. cbv zeta in Hh.
    destruct (Option_clone a h) as [a' h1] eqn:Hclone.
    simpl in Ha, Hh. subst a'. rewrite Hh.
    eexists _, _. split; [reflexivity |]. simpl.
    exists (length h). split; [lia |]. split; [done |].
    by apply list_lookup_middle.
  - destruct (sub_Context c) eqn:Hctx.
    + eexists _, []. rewrite app_nil_r. split; [reflexivity |]. done.
    + destruct (sub_ChoiceEnum c) eqn:Henum.
      * unfold alloc.
        destruct (clone_and_set (h ++ [Option_of_ChoiceEnum c]) p (length h))
          as [Ha Hh]. cbv zeta in Hh.
        destruct (Option_clone (length h) (h ++ [Option_of_ChoiceEnum c]))
          as [a' h1] eqn:Hclone.
        simpl in Ha, Hh. rewrite Ha. rewrite Hh.
        eexists _, _. rewrite <- app_assoc.
        split; [reflexivity |]. simpl.
        exists (length (h ++ [Option_of_ChoiceEnum c])).
        split; [rewrite length_app; lia |]. split; [done |].
        rewrite (list_lookup_total_middle h [] _ (length h) eq_refl).
        change (h ++ [Option_of_ChoiceEnum c;
                      stored_option p (Option_of_ChoiceEnum c)])
          with (h ++ [Option_of_ChoiceEnum c]
                  ++ [stored_option p (Option_of_ChoiceEnum c)]).
        rewrite app_assoc. by apply list_lookup_middle.
      * exists st, []. rewrite app_nil_r. by destruct st.
  - exists st, []. rewrite app_nil_r. by destruct st.
Qed.


(** The prototype of a parameter does not change when the store grows. *)
Lemma prototype_app (p : param) (h new : heap) :
  (forall a, annotation_of coro p = ObjOption a -> (a < length h)%nat) ->
  prototype Option_of_ChoiceEnum coro (h ++ new) p
  = prototype Option_of_ChoiceEnum coro h p.
Proof.
  unfold prototype. intros Hlive.
  destruct (annotation_of coro p) as [| a | c |]; try reflexivity.
  apply lookup_total_app_l. by apply Hlive.
Qed.

(** The loop appends to [options] one entry for each option parameter,
    in the order of the parameters. *)
Lemma init_params_order (ps : list param) (st st' : init_state)
    (h h' : heap) :
  init_params repr Option_of_ChoiceEnum name coro ps st h = (Ok st', h') ->
  NoDup (param_name <$> ps) ->
  (forall p, p ∈ ps -> param_name p ∉ (st_options st).*1) ->
  (forall p a, p ∈ ps -> annotation_of coro p = ObjOption a ->
     (a < length h)%nat) ->
  exists added new,
    st_options st' = st_options st ++ added
    /\ h' = h ++ new
    /\ Forall2
         (fun kv p =>
            p ∈ ps /\ kv.1 = param_name p /\ (length h <= kv.2)%nat
            /\ h' !! kv.2
               = Some (stored_option p
                         (prototype Option_of_ChoiceEnum coro h p)))
         added (List.filter (is_option_param coro) ps).
Proof.
  revert st h. induction ps as [| p0 ps IH]; intros st h Hrun Hnames Hfresh Hlive.
  - simpl in Hrun. injection Hrun as <- <-.
    exists [], []. rewrite !app_nil_r. split; [done |]. split; [done |].
    constructor.
  - cbn [init_params] in Hrun. rewrite fmap_cons in Hnames.
    apply NoDup_cons in Hnames as [Hp0 Hnames]. cbn [List.filter].
    destruct (unannotated_required coro p0) eqn:Hreq.
    + rewrite (init_param_unannotated _ _ _ _ _ _ _ Hreq) in Hrun.
      destruct (st_found_self_arg st); [discriminate |].
      assert (Hnot : is_option_param coro p0 = false).
      { unfold unannotated_required, valid_annotation in Hreq.
        unfold is_option_param.
        destruct (annotation_of coro p0) as [| a | c |]; try done.
        apply andb_true_iff in Hreq as [Hreq _].
        apply negb_true_iff, orb_false_iff in Hreq as [-> _].
        by rewrite andb_false_r. }
      rewrite Hnot.
      destruct (IH _ _ Hrun Hnames) as (added & new & Hadded & -> & Hall).
      * intros p Hp. apply Hfresh. by right.
      * intros p a Hp. apply Hlive. by right.
      * exists added, new. split; [done |]. split; [done |].
        eapply Forall2_impl; [exact Hall |].
        intros kv p (Hp & Hrest). split; [by right | exact Hrest].
    + destruct (init_param_stores p0 st h Hreq) as (st1 & new1 & Hstep & Hopt).
      rewrite Hstep in Hrun.
      assert (Hlive1 : forall p a, p ∈ ps ->
                annotation_of coro p = ObjOption a ->
                (a < length (h ++ new1))%nat).
      { intros p a Hp Hann. rewrite length_app.
        pose proof (Hlive p a ltac:(by right) Hann). lia. }
      destruct (is_option_param coro p0).
      * destruct Hopt as (a' & Hfresh' & Hopts & Hobj).
        assert (Hkey : param_name p0 ∉ (st_options st).*1).
        { apply Hfresh. left. }
        rewrite (dict_set_fresh _ _ _ Hkey) in Hopts.
        destruct (IH _ _ Hrun Hnames) as (added & new & Hadded & -> & Hall);
          [| exact Hlive1 |].
        { intros p Hp. rewrite Hopts, fmap_app, elem_of_app.
          intros [Hin | Hin].
          - by apply (Hfresh p ltac:(by right)).
          - apply list_elem_of_singleton in Hin. simpl in Hin.
            apply Hp0. rewrite <- Hin. apply list_elem_of_fmap. by exists p. }
        exists ((param_name p0, a') :: added), (new1 ++ new).
        split; [by rewrite Hadded, Hopts, <- app_assoc |].
        split; [by rewrite app_assoc |].
        constructor.
        -- simpl. split; [left |]. split; [done |]. split; [done |].
           apply lookup_app_l_Some. exact Hobj.
        -- eapply Forall2_impl; [exact Hall |].
           intros [k a] p (Hp & Hk & Ha & Hget). simpl in *.
           split; [by right |]. split; [done |].
           rewrite length_app in Ha. split; [lia |].
           rewrite Hget. f_equal. f_equal.
           apply prototype_app. intros a0. apply Hlive. by right.
      * destruct (IH _ _ Hrun Hnames) as (added & new & Hadded & -> & Hall);
          [| exact Hlive1 |].
        { intros p Hp. rewrite Hopt. apply Hfresh. by right. }
        exists added, (new1 ++ new).
        split; [by rewrite Hadded, Hopt |].
        split; [by rewrite app_assoc |].
        eapply Forall2_impl; [exact Hall |].
        intros [k a] p (Hp & Hk & Ha & Hget). simpl in *.
        split; [by right |]. split; [done |].
        rewrite length_app in Ha. split; [lia |].
        rewrite Hget. f_equal. f_equal.
        apply prototype_app. intros a0. apply Hlive. by right.
Qed.

End InitOrder.

Section OptionsProperties.
Variable repr : string -> string.
Variable Option_of_ChoiceEnum : pyclass -> Option.

(** X11.  The options of a command that was built are those of its
    option parameters (annotated with an [Option] instance or with a
    [ChoiceEnum]), one each and in the order of declaration, under the
    names of the parameters; the context parameter, the skipped first
    bare parameter and parameters with other annotations give none.
    Each is a new object made from the prototype of its parameter; so
    each has a name, and each is required when its parameter has no
    default. *)
Theorem init_options_in_order (coro : pyfunction) (kw : kwargs)
    (h h' : heap) (cmd : Command) :
  Command_init repr Option_of_ChoiceEnum coro kw h = (Ok cmd, h') ->
  NoDup (param_name <$> fn_parameters coro) ->
  (forall p a, p ∈ fn_parameters coro ->
     annotation_of coro p = ObjOption a -> (a < length h)%nat) ->
  Forall2
    (fun kv p =>
       kv.1 = param_name p /\ (length h <= kv.2)%nat
       /\ exists o,
            h' !! kv.2 = Some o
            /\ o = stored_option p (prototype Option_of_ChoiceEnum coro h p)
            /\ is_Some (opt_name o)
            /\ (param_default p = None -> opt_required o = true))
    (cmd_options cmd)
    (List.filter (is_option_param coro) (fn_parameters coro)).
Proof.
  intros Hinit Hnames Hlive. unfold Command_init in Hinit.
  destruct (negb (truthy (pop (kw_description kw) (fn_doc coro))));
    [discriminate |].
  cbv zeta in Hinit.
  destruct (init_params _ _ _ _ _ _ _) as [[st | e] h1] eqn:Hrun;
    [| discriminate].
  destruct (st_ctx_arg st); [| discriminate].
  injection Hinit as <- <-. cbn [cmd_options].
  destruct (init_params_order _ _ _ _ _ _ _ _ _ Hrun Hnames)
    as (added & new & Hadded & _ & Hall); [| exact Hlive |].
  { intros q _. apply not_elem_of_nil. }
  simpl in Hadded. rewrite Hadded.
  eapply Forall2_impl; [exact Hall |].
  intros [k a] q (_ & Hk & Ha & Hget). simpl in *.
  split; [done |]. split; [done |].
  eexists. split; [exact Hget |]. split; [reflexivity |].
  unfold stored_option. simpl. split.
  - by destruct (opt_name (prototype Option_of_ChoiceEnum coro h q)).
  - by intros ->.
Qed.

End OptionsProperties.

(** On [echo(ctx, first: msg_opt, second: msg_opt)]: two options, [first]
    then [second]. *)
Lemma init_options_in_order_witness :
  NoDup (param_name <$> fn_parameters echo_coro)
  /\ (forall p a, p ∈ fn_parameters echo_coro ->
        annotation_of echo_coro p = ObjOption a -> (a < length demo_heap)%nat)
  /\ exists cmd h',
       Command_init py_repr choice_option echo_coro no_kwargs demo_heap
       = (Ok cmd, h')
       /\ (cmd_options cmd).*1 = ["first"; "second"].
Proof.
  assert (Hnames : NoDup (param_name <$> fn_parameters echo_coro)).
  { apply (bool_decide_unpack _). vm_compute. exact I. }
  assert (Hlive : forall p a, p ∈ fn_parameters echo_coro ->
            annotation_of echo_coro p = ObjOption a ->
            (a < length demo_heap)%nat).
  { intros p a Hp Hann.
    repeat (apply elem_of_cons in Hp as [-> | Hp]);
      [discriminate Hann | | | by apply elem_of_nil in Hp];
      vm_compute in Hann; injection Hann as <-; simpl; lia. }
  split; [exact Hnames |]. split; [exact Hlive |].
  destruct (Command_init py_repr choice_option echo_coro no_kwargs demo_heap)
    as [[cmd | e] h'] eqn:Hinit; [| discriminate Hinit].
  exists cmd, h'. split; [reflexivity |].
  pose proof (init_options_in_order py_repr choice_option echo_coro no_kwargs
                demo_heap h' cmd Hinit Hnames Hlive) as Hall.
  change (List.filter (is_option_param echo_coro) (fn_parameters echo_coro))
    with [first_param; second_param] in Hall.
  apply Forall2_cons_inv_r in Hall as (kv1 & rest & [Hk1 _] & Hall & ->).
  apply Forall2_cons_inv_r in Hall as (kv2 & rest' & [Hk2 _] & Hall & ->).
  apply Forall2_nil_inv_r in Hall as ->.
  simpl. rewrite Hk1, Hk2. reflexivity.
Defined.

(** ** [Group.slash_cmd] *)

Section GroupProperties.
Variable repr : string -> string.
Variable Option_of_ChoiceEnum : pyclass -> Option.

(** X12.  A subcommand made by [slash_cmd] (or [slash_group]) has the
    group as its parent, whatever [parent] the caller passed, and the
    cog of the group; it is registered under its name, in the place of
    an earlier subcommand of that name, the others staying.  So its
    qualified name is the group's followed by its own, and when the cog
    of the group defines [cog_check], that check is among those
    [can_run] collects for the subcommand. *)
Theorem slash_cmd_child (self cmd : Command)
    (slash slash' : pydict string Command) (func : pyfunction) (kw : kwargs)
    (h h' : heap) :
  Group_slash_cmd repr Option_of_ChoiceEnum self slash func kw h
  = (Ok (cmd, slash'), h') ->
  cmd_parent cmd = Some self
  /\ cmd_cog cmd = cmd_cog self
  /\ Command_qualname cmd = Command_qualname self +:+ " " +:+ cmd_name cmd
  /\ dict_get (cmd_name cmd) slash' = Some cmd
  /\ (forall k, k <> cmd_name cmd -> dict_get k slash' = dict_get k slash)
  /\ (forall cog f ctx,
        cmd_cog self = Some cog -> cog_check cog = Some f ->
        Method cog f ∈ can_run_checks cmd ctx).
Proof.
  unfold Group_slash_cmd, Command_init. intros Hreg.
  destruct (negb (truthy _)); [discriminate |]. cbv zeta in Hreg.
  destruct (init_params _ _ _ _ _ _ _) as [[st | e] h1]; [| discriminate].
  destruct (st_ctx_arg st); [| discriminate].
  injection Hreg as <- <- <-. cbn [cmd_name cmd_parent cmd_cog set_cog].
  split; [reflexivity |]. split; [reflexivity |]. split; [reflexivity |].
  split; [apply dict_get_set_eq |]. split.
  - intros k Hk. apply dict_get_set_ne. congruence.
  - intros cog f ctx Hcog Hf. rewrite can_run_checks_eq.
    cbn [ancestors cmd_parent set_parent kw_parent pop].
    rewrite !elem_of_app. right. left.
    apply list_elem_of_In. apply -> in_rev. apply list_elem_of_In.
    apply cog_checks_elem_of. right.
    exists self, cog, f. split; [left | done].
Qed.

End GroupProperties.

Lemma slash_cmd_child_witness :
  exists cmd slash' h',
    Group_slash_cmd py_repr choice_option guarded_say [] echo_coro no_kwargs
      demo_heap = (Ok (cmd, slash'), h')
    /\ cmd_parent cmd = Some guarded_say
    /\ Command_qualname cmd = "say echo"
    /\ Method guarded_cog 20%nat ∈ can_run_checks cmd hi_ctx.
Proof.
  destruct (Group_slash_cmd py_repr choice_option guarded_say [] echo_coro
              no_kwargs demo_heap) as [[[cmd slash'] | e] h'] eqn:Hreg;
    [| discriminate Hreg].
  exists cmd, slash', h'. split; [reflexivity |].
  pose proof (slash_cmd_child py_repr choice_option guarded_say cmd [] slash'
                echo_coro no_kwargs demo_heap h' Hreg)
    as (Hparent & _ & Hqual & _ & _ & Hcheck).
  split; [exact Hparent |]. split.
  - rewrite Hqual. vm_compute in Hreg. injection Hreg as <- _ _. reflexivity.
  - by apply (Hcheck guarded_cog 20%nat hi_ctx).
Defined.

(** ** components.py *)

(** X13.  [ActionRow(c, *rest)] keeps a button [c] and the rest, in
    that order; of a select menu [c] it keeps the menu alone and drops
    the rest without a word; given a row as [c] it raises [TypeError].
    [ActionRow([c, *rest])] keeps them all.  So the two forms build the
    same row exactly when [c] is a button, or [c] is a select menu and
    there is no rest. *)
Theorem ActionRow_init_forms (c : MessageComponent)
    (rest : list MessageComponent) :
  ActionRow_init (One c) rest
  = match c with
    | OfButton _ => Ok (ActionRow (c :: rest))
    | OfSelectMenu _ => Ok (ActionRow [c])
    | ActionRow _ => Raise (TypeError "'ActionRow' object is not iterable")
    end
  /\ ActionRow_init (Many (c :: rest)) [] = Ok (ActionRow (c :: rest))
  /\ (ActionRow_init (One c) rest = ActionRow_init (Many (c :: rest)) []
      <-> (exists b, c = OfButton b)
          \/ ((exists m, c = OfSelectMenu m) /\ rest = [])).
Proof.
  split; [by destruct c |]. split; [simpl; by rewrite app_nil_r |].
  destruct c as [l | b | m]; simpl; rewrite ?app_nil_r.
  - split; [discriminate |]. intros [[b Hb] | [[m Hm] _]]; discriminate.
  - split; [| reflexivity]. intros _. left. by exists b.
  - split.
    + intros Heq. right. split; [by exists m |].
      injection Heq as Heq. done.
    + intros [[b Hb] | [_ ->]]; [discriminate | reflexivity].
Qed.

Section ComponentProperties.
Variable ButtonStyle_int : ButtonStyle -> Z.
Variable PartialEmoji_to_dict : PartialEmoji -> json.
Variable PartialEmoji_from_dict : json -> decoded PartialEmoji.
Variable repr_json : json -> string.
Variable bad_keyword : string -> string.
Variable missing_arguments : list string -> string.

(** Distinct members of an enumeration have distinct values, and an
    emoji is read back from what it writes. *)
Hypothesis ButtonStyle_int_inj : forall s s',
  ButtonStyle_int s = ButtonStyle_int s' -> s = s'.
Hypothesis PartialEmoji_round_trip : forall e,
  PartialEmoji_from_dict (PartialEmoji_to_dict e) = Decoded e.

Lemma ButtonStyle_of_int (s : ButtonStyle) :
  ButtonStyle_of ButtonStyle_int repr_json (JInt (ButtonStyle_int s))
  = Decoded s.
Proof.
  unfold ButtonStyle_of. simpl.
  destruct s;
    repeat (case_bool_decide as E;
            [apply ButtonStyle_int_inj in E; try discriminate E; reflexivity
            | try (by destruct E); clear E]).
Qed.

Lemma Button_init_inv (style : ButtonStyle) (label : option string)
    (emoji : option emoji_arg) (custom_id url : option string)
    (disabled : bool) (b : Button) :
  Button_init style label emoji custom_id url disabled = Ok b ->
  b = {| btn_style := style; btn_label := label;
         btn_emoji := match emoji with
                      | Some (EmojiStr s) => Some {| emoji_name := s |}
                      | Some (EmojiObj e) => Some e
                      | None => None
                      end;
         btn_custom_id := custom_id; btn_url := url;
         btn_disabled := disabled |}
  /\ is_None label && is_None emoji = false
  /\ (style = LINK /\ custom_id = None /\ truthy url = true
      \/ style <> LINK /\ truthy custom_id = true /\ url = None).
Proof.
  unfold Button_init. intros Hb.
  destruct (decide (style = LINK)) as [Hs | Hs].
  - destruct custom_id; [discriminate Hb |]. simpl in Hb.
    destruct (truthy url) eqn:Hu; [| discriminate Hb]. simpl in Hb.
    destruct (is_None label && is_None emoji); [discriminate Hb |].
    injection Hb as <-. split; [done |]. split; [done |]. by left.
  - destruct (truthy custom_id) eqn:Hc; [| discriminate Hb]. simpl in Hb.
    destruct url; [discriminate Hb |]. simpl in Hb.
    destruct (is_None label && is_None emoji); [discriminate Hb |].
    injection Hb as <-. split; [done |]. split; [done |]. by right.
Qed.

Lemma truthy_inv (v : option string) :
  truthy v = true -> exists a s, v = Some (String a s).
Proof. destruct v as [[| a s] |]; try discriminate. by exists a, s. Qed.

(** Evaluation of the dictionary operations on the literal keys. *)
Ltac eval_term t :=
  let r := eval vm_compute in t in change t with r.

Ltac eval_dicts :=
  repeat match goal with
         | |- context [clean_data ?d] => eval_term (clean_data d)
         end;
  repeat match goal with
         | |- context [dict_get ?k ?d] => eval_term (dict_get k d)
         | |- context [bind_keywords ?f ?g ?ps ?rs ?ks] =>
           eval_term (bind_keywords f g ps rs ks)
         end.

Lemma Button_round_trip_iff (style : ButtonStyle) (label : option string)
    (emoji : option emoji_arg) (custom_id url : option string)
    (disabled : bool) (b : Button) :
  Button_init style label emoji custom_id url disabled = Ok b ->
  Button_from_dict ButtonStyle_int PartialEmoji_from_dict repr_json
    bad_keyword missing_arguments
    (Button_to_dict ButtonStyle_int PartialEmoji_to_dict b) = Decoded b
  <-> label <> Some "".
Proof.
  intros Hb. apply Button_init_inv in Hb as (-> & Hle & Hshape).
  unfold Button_from_dict. cbv zeta.
  destruct Hshape as [(-> & -> & Hu) | (Hs & Hc & ->)].
  - apply truthy_inv in Hu as (a & u & ->).
    destruct label as [[| la ls] |]; destruct emoji as [[es | e] |];
      try discriminate Hle;
      eval_dicts; cbv iota beta; rewrite ButtonStyle_of_int;
      unfold emoji_of; eval_dicts; cbn; rewrite ?PartialEmoji_round_trip; cbn;
      (split;
       [ intros Heq; try discriminate Heq; try (injection Heq; congruence);
         congruence
       | intros Hne; try reflexivity; by destruct Hne ]).
  - apply truthy_inv in Hc as (a & u & ->).
    destruct style; try (by destruct Hs);
    destruct label as [[| la ls] |]; destruct emoji as [[es | e] |];
      try discriminate Hle;
      eval_dicts; cbv iota beta; rewrite ButtonStyle_of_int;
      unfold emoji_of; eval_dicts; cbn; rewrite ?PartialEmoji_round_trip; cbn;
      (split;
       [ intros Heq; try discriminate Heq; try (injection Heq; congruence);
         congruence
       | intros Hne; try reflexivity; by destruct Hne ]).
Qed.

(** X14.  A button that [Button.__init__] built is read back by
    [Button.from_dict] from its [to_dict] exactly when its label is not
    the empty string: an empty label is not written, so that the button
    comes back without label, or, having no emoji either, is refused. *)
Theorem Button_round_trip (style : ButtonStyle) (label : option string)
    (emoji : option emoji_arg) (custom_id url : option string)
    (disabled : bool) (b : Button) :
  Button_init style label emoji custom_id url disabled = Ok b ->
  Button_from_dict ButtonStyle_int PartialEmoji_from_dict repr_json
    bad_keyword missing_arguments
    (Button_to_dict ButtonStyle_int PartialEmoji_to_dict b) = Decoded b
  <-> label <> Some "".
Proof. apply Button_round_trip_iff. Qed.

Lemma decode_each_cons {A B : Type} (f : A -> decoded B) (x : A)
    (l : list A) (y : B) (l' : list B) :
  decode_each f (x :: l) = Decoded (y :: l')
  <-> f x = Decoded y /\ decode_each f l = Decoded l'.
Proof.
  simpl. destruct (f x) as [y' | |]; simpl;
    [| split; [discriminate | intros [? _]; discriminate] ..].
  destruct (decode_each f l) as [ys | |]; simpl;
    [| split; [discriminate | intros [_ ?]; discriminate] ..].
  split.
  - intros [= -> ->]. done.
  - intros [[= ->] [= ->]]. done.
Qed.

Lemma decode_each_fmap {A B : Type} (f : A -> decoded B) (g : B -> A)
    (l : list B) :
  decode_each f (g <$> l) = Decoded l <-> Forall (fun y => f (g y) = Decoded y) l.
Proof.
  induction l as [| y l IH]; [done |].
  rewrite fmap_cons, decode_each_cons, Forall_cons, IH. done.
Qed.

Lemma SelectOption_round_trip (opt : SelectOption) :
  SelectOption_from_dict PartialEmoji_from_dict bad_keyword missing_arguments
    (SelectOption_to_dict PartialEmoji_to_dict opt) = Decoded opt
  <-> so_description opt <> Some "".
Proof.
  destruct opt as [label value description emoji default].
  unfold SelectOption_from_dict, SelectOption_to_dict.
  destruct description as [[| a d] |]; destruct emoji as [e |];
    unfold emoji_of; cbn [so_label so_value so_description so_emoji so_default];
    eval_dicts; cbn; rewrite ?PartialEmoji_round_trip; cbn;
    (split;
     [ intros Heq; try discriminate Heq; congruence
     | intros Hne; try reflexivity; by destruct Hne ]).
Qed.

Lemma SelectMenu_round_trip_iff (m : SelectMenu) :
  SelectMenu_from_dict PartialEmoji_from_dict bad_keyword missing_arguments
    (SelectMenu_to_dict PartialEmoji_to_dict m) = Decoded m
  <-> sm_placeholder m <> Some ""
      /\ Forall (fun opt => so_description opt <> Some "") (sm_options m).
Proof.
  destruct m as [custom_id options placeholder min_values max_values disabled].
  unfold SelectMenu_from_dict, SelectMenu_to_dict.
  cbn [sm_custom_id sm_options sm_placeholder sm_min_values sm_max_values
       sm_disabled].
  pose proof (decode_each_fmap
                (of_dict (SelectOption_from_dict PartialEmoji_from_dict
                            bad_keyword missing_arguments))
                (fun opt => JDict (SelectOption_to_dict PartialEmoji_to_dict opt))
                options) as Hopts.
  cbn [of_dict] in Hopts.
  setoid_rewrite SelectOption_round_trip in Hopts.
  remember ((fun opt => JDict (SelectOption_to_dict PartialEmoji_to_dict opt))
            <$> options) as js eqn:Hjs.
  destruct placeholder as [[| a p] |]; cbv zeta; eval_dicts; cbv iota beta;
    rewrite <- Hopts; clear Hopts Hjs;
    destruct (decode_each _ js) as [options' | f |]; cbn;
    (split;
     [ intros Heq; try discriminate Heq; inversion Heq; by subst
     | intros [Hne Hdec]; try (by destruct Hne); try discriminate Hdec;
       by injection Hdec as -> ]).
Qed.

(** X15.  A select menu is read back by [SelectMenu.from_dict] from its
    [to_dict] exactly when neither its placeholder nor the description
    of one of its options is the empty string, which [to_dict] leaves
    out. *)
Theorem SelectMenu_round_trip (m : SelectMenu) :
  SelectMenu_from_dict PartialEmoji_from_dict bad_keyword missing_arguments
    (SelectMenu_to_dict PartialEmoji_to_dict m) = Decoded m
  <-> sm_placeholder m <> Some ""
      /\ Forall (fun opt => so_description opt <> Some "") (sm_options m).
Proof. apply SelectMenu_round_trip_iff. Qed.

Lemma forallb_Forall {A : Type} (f : A -> bool) (l : list A) :
  forallb f l = true <-> Forall (fun x => f x = true) l.
Proof.
  induction l as [| x l IH]; simpl; [done |].
  rewrite andb_true_iff, Forall_cons, IH. done.
Qed.

Lemma written_spec (v : option string) : written v = true <-> v <> Some "".
Proof.
  unfold written. rewrite negb_true_iff, bool_decide_eq_false. done.
Qed.

Lemma accepted_init (b : Button) :
  accepted b = true ->
  Button_init (btn_style b) (btn_label b) (EmojiObj <$> btn_emoji b)
    (btn_custom_id b) (btn_url b) (btn_disabled b) = Ok b.
Proof.
  destruct b as [style label emoji custom_id url disabled].
  unfold accepted, Button_raises, Button_init. simpl.
  destruct style, label, emoji, custom_id as [[| ? ?] |], url as [[| ? ?] |];
    simpl; intros Hacc; try discriminate Hacc; reflexivity.
Qed.

Lemma dict_get_set_truthy (k k' : string) (v : option string)
    (d : pydict string json) :
  k <> k' -> dict_get k (set_truthy k' v d) = dict_get k d.
Proof.
  intros Hk. unfold set_truthy. destruct v as [s |]; [| done].
  destruct (truthy (Some s)); [| done]. by apply dict_get_set_ne.
Qed.

Lemma dict_get_set_emoji (k : string) (v : option PartialEmoji)
    (d : pydict string json) :
  k <> "emoji" ->
  dict_get k (set_emoji PartialEmoji_to_dict v d) = dict_get k d.
Proof.
  intros Hk. unfold set_emoji. destruct v as [e |]; [| done].
  by apply dict_get_set_ne.
Qed.

Lemma Button_to_dict_type (b : Button) :
  dict_get "type" (Button_to_dict ButtonStyle_int PartialEmoji_to_dict b)
  = Some (JInt 2).
Proof.
  unfold Button_to_dict. cbv zeta.
  rewrite !dict_get_set_truthy, dict_get_set_emoji, dict_get_set_truthy
    by discriminate.
  vm_compute. reflexivity.
Qed.

Lemma SelectMenu_to_dict_type (m : SelectMenu) :
  dict_get "type" (SelectMenu_to_dict PartialEmoji_to_dict m)
  = Some (JInt 3).
Proof.
  unfold SelectMenu_to_dict. cbv zeta.
  rewrite dict_get_set_truthy by discriminate.
  generalize ((fun opt => JDict (SelectOption_to_dict PartialEmoji_to_dict opt))
              <$> sm_options m).
  intros js. vm_compute. reflexivity.
Qed.

Lemma height_elem_of (c : MessageComponent) (l : list MessageComponent) :
  c ∈ l -> (height c <= foldr (fun c n => max (height c) n) 0 l)%nat.
Proof.
  induction 1 as [c l | c c' l _ IH]; simpl; lia.
Qed.

(** X16.  [MessageComponent.from_dict] reads back from its [to_dict] any
    component, rows nested in rows included, whose buttons are such as
    the constructor accepts and in which no label, placeholder or
    description is the empty string, as soon as the stack allows its
    nesting. *)
Theorem MessageComponent_round_trip (depth : nat) (comp : MessageComponent) :
  constructed comp = true ->
  no_empty_string comp = true ->
  (height comp <= depth)%nat ->
  MessageComponent_from_dict ButtonStyle_int PartialEmoji_from_dict repr_json
    bad_keyword missing_arguments depth
    (to_dict ButtonStyle_int PartialEmoji_to_dict comp) = Decoded comp.
Proof.
  revert comp. induction depth as [| depth IH]; intros comp Hcons Hfull Hh.
  { destruct comp; simpl in Hh; lia. }
  destruct comp as [components | b | m].
  - assert (Hfirst :
      decode_each
        (of_dict (MessageComponent_from_dict ButtonStyle_int
                    PartialEmoji_from_dict repr_json bad_keyword
                    missing_arguments depth))
        ((fun c => JDict (to_dict ButtonStyle_int PartialEmoji_to_dict c))
         <$> components) = Decoded components).
    { apply decode_each_fmap, Forall_forall. intros c Hc. cbn [of_dict].
      simpl in Hcons, Hfull, Hh.
      rewrite forallb_Forall, Forall_forall in Hcons, Hfull.
      apply IH; [by apply Hcons | by apply Hfull |].
      pose proof (height_elem_of c components Hc). lia. }
    cbn [to_dict MessageComponent_from_dict].
    change (map ?f components) with (f <$> components).
    remember ((fun c => JDict (to_dict ButtonStyle_int PartialEmoji_to_dict c))
              <$> components) as js eqn:Hjs.
    unfold ActionRow_from_dict, MessageComponent_to_dict. eval_dicts.
    cbv iota beta zeta. cbn [as_int]. cbv iota beta. eval_dicts.
    cbv iota beta. rewrite Hfirst. cbn. rewrite app_nil_r. reflexivity.
  - cbn [to_dict MessageComponent_from_dict].
    rewrite Button_to_dict_type. cbn [as_int]. cbv iota beta.
    simpl in Hcons, Hfull. apply written_spec in Hfull.
    rewrite (proj2 (Button_round_trip_iff _ _ _ _ _ _ b (accepted_init b Hcons))
               Hfull).
    reflexivity.
  - cbn [to_dict MessageComponent_from_dict].
    rewrite SelectMenu_to_dict_type. cbn [as_int]. cbv iota beta.
    simpl in Hfull. apply andb_true_iff in Hfull as [Hp Ho].
    apply written_spec in Hp. apply forallb_Forall in Ho.
    rewrite (proj2 (SelectMenu_round_trip_iff m)); [reflexivity |].
    split; [done |]. eapply Forall_impl; [exact Ho |].
    intros opt Hopt. by apply written_spec.
Qed.

(** X17.  The dictionary of a button that [Button.__init__] built has
    the key [url] exactly when the style is [LINK], and the key
    [custom_id] exactly when it is not. *)
Theorem Button_to_dict_link_keys (style : ButtonStyle) (label : option string)
    (emoji : option emoji_arg) (custom_id url : option string)
    (disabled : bool) (b : Button) :
  Button_init style label emoji custom_id url disabled = Ok b ->
  (is_Some (dict_get "url"
              (Button_to_dict ButtonStyle_int PartialEmoji_to_dict b))
   <-> style = LINK)
  /\ (is_Some (dict_get "custom_id"
                 (Button_to_dict ButtonStyle_int PartialEmoji_to_dict b))
      <-> style <> LINK).
Proof using ButtonStyle_int PartialEmoji_to_dict.
  intros Hb. apply Button_init_inv in Hb as (-> & _ & Hshape).
  destruct Hshape as [(-> & -> & Hu) | (Hs & Hc & ->)];
    [apply truthy_inv in Hu as (a & u & ->)
    | apply truthy_inv in Hc as (a & u & ->)];
    destruct label as [[| la ls] |]; destruct emoji as [[es | e] |];
    eval_dicts; rewrite !is_Some_alt;
    (split; split; intros H; solve [done | by destruct H | congruence]).
Qed.

Lemma dict_del_keys {V : Type} (k k' : string) (d : pydict string V) :
  k ∈ d.*1 -> k <> k' -> k ∈ (dict_del k' d).*1.
Proof.
  intros Hk Hne. apply list_elem_of_fmap in Hk as ([k0 v] & -> & Hkv).
  apply list_elem_of_fmap. exists (k0, v). split; [done |].
  apply list_elem_of_In, filter_In. split; [by apply list_elem_of_In |].
  simpl in *. apply negb_true_iff, String.eqb_neq. done.
Qed.

Lemma bind_keywords_unknown (params required keys : list string) (k : string) :
  k ∈ keys -> k ∉ params ->
  exists k', bind_keywords bad_keyword missing_arguments params required keys
             = Failed (Raised (TypeError (bad_keyword k'))).
Proof.
  intros Hk Hp. unfold bind_keywords.
  destruct (List.find _ keys) as [k' |] eqn:Hfind; [by exists k' |].
  apply list_elem_of_In in Hk.
  pose proof (find_none _ _ Hfind k Hk) as Hfalse.
  apply bool_decide_eq_false in Hfalse. by destruct Hfalse.
Qed.

(** X18.  A key that names no parameter of the constructor makes
    [from_dict] fail, whatever else the dictionary holds: for a button
    and a select menu every key but [type] and [hash], which they
    discard, and the parameters; for a select option also those two. *)
Theorem from_dict_unknown_key (data : pydict string json) (k : string) :
  k ∈ data.*1 ->
  (k ∉ ["type"; "hash"; "style"; "label"; "emoji"; "custom_id"; "url";
        "disabled"] ->
   forall b, Button_from_dict ButtonStyle_int PartialEmoji_from_dict repr_json
               bad_keyword missing_arguments data <> Decoded b)
  /\ (k ∉ ["type"; "hash"; "custom_id"; "options"; "placeholder";
           "min_values"; "max_values"; "disabled"] ->
      forall m, SelectMenu_from_dict PartialEmoji_from_dict bad_keyword
                  missing_arguments data <> Decoded m)
  /\ (k ∉ ["label"; "value"; "description"; "emoji"; "default"] ->
      forall opt, SelectOption_from_dict PartialEmoji_from_dict bad_keyword
                    missing_arguments data <> Decoded opt).
Proof.
  intros Hk. split; [| split].
  - intros Hp b. unfold Button_from_dict. cbv zeta.
    apply not_elem_of_cons in Hp as [Htype Hp].
    apply not_elem_of_cons in Hp as [Hhash Hp].
    destruct (bind_keywords_unknown
                ["style"; "label"; "emoji"; "custom_id"; "url"; "disabled"]
                ["style"] (clean_data data).*1 k) as [k' Hbind];
      [by apply dict_del_keys; [apply dict_del_keys |] | done |].
    rewrite Hbind.
    destruct (dict_get "style" _); [| discriminate].
    destruct (ButtonStyle_of _ _ _); [| discriminate ..]. simpl.
    destruct (emoji_of _ _); discriminate.
  - intros Hp m. unfold SelectMenu_from_dict. cbv zeta.
    apply not_elem_of_cons in Hp as [Htype Hp].
    apply not_elem_of_cons in Hp as [Hhash Hp].
    destruct (bind_keywords_unknown
                ["custom_id"; "options"; "placeholder"; "min_values";
                 "max_values"; "disabled"]
                ["custom_id"; "options"] (clean_data data).*1 k)
      as [k' Hbind];
      [by apply dict_del_keys; [apply dict_del_keys |] | done |].
    rewrite Hbind.
    destruct (dict_get "options" _) as [v |]; [| discriminate].
    destruct v as [| | | | l |]; try discriminate.
    destruct (decode_each _ l); discriminate.
  - intros Hp opt. unfold SelectOption_from_dict.
    destruct (bind_keywords_unknown
                ["label"; "value"; "description"; "emoji"; "default"]
                ["label"; "value"] data.*1 k) as [k' Hbind]; [done .. |].
    rewrite Hbind. destruct (emoji_of _ _); discriminate.
Qed.

End ComponentProperties.

Lemma style_value_inj (s s' : ButtonStyle) :
  style_value s = style_value s' -> s = s'.
Proof. destruct s, s'; (reflexivity || discriminate). Qed.

Lemma emoji_json_round_trip (e : PartialEmoji) :
  emoji_of_json (emoji_json e) = Decoded e.
Proof. by destruct e. Qed.

Lemma Button_round_trip_witness :
  Button_init LINK (Some "Docs") None None (Some "https://example.org") false
  = Ok docs_button
  /\ Button_from_dict style_value emoji_of_json json_repr keyword_message
       missing_message (Button_to_dict style_value emoji_json docs_button)
     = Decoded docs_button.
Proof.
  split; [reflexivity |].
  apply (Button_round_trip style_value emoji_json emoji_of_json json_repr
           keyword_message missing_message style_value_inj
           emoji_json_round_trip LINK (Some "Docs") None None
           (Some "https://example.org") false docs_button);
    [reflexivity | discriminate].
Defined.

Lemma SelectMenu_round_trip_witness :
  SelectMenu_from_dict emoji_of_json keyword_message missing_message
    (SelectMenu_to_dict emoji_json colour_menu) = Decoded colour_menu.
Proof.
  apply (SelectMenu_round_trip emoji_json emoji_of_json keyword_message
           missing_message emoji_json_round_trip colour_menu).
  split; [discriminate |].
  repeat constructor; discriminate.
Defined.

Lemma MessageComponent_round_trip_witness :
  MessageComponent_from_dict style_value emoji_of_json json_repr
    keyword_message missing_message 3 (to_dict style_value emoji_json docs_row)
  = Decoded docs_row.
Proof.
  apply (MessageComponent_round_trip style_value emoji_json emoji_of_json
           json_repr keyword_message missing_message style_value_inj
           emoji_json_round_trip 3 docs_row);
    [reflexivity | reflexivity | simpl; lia].
Defined.

Lemma Button_to_dict_link_keys_witness :
  is_Some (dict_get "url" (Button_to_dict style_value emoji_json docs_button))
  /\ ~ is_Some (dict_get "custom_id"
                  (Button_to_dict style_value emoji_json docs_button)).
Proof.
  destruct (Button_to_dict_link_keys style_value emoji_json LINK (Some "Docs")
              None None (Some "https://example.org") false docs_button
              eq_refl) as [Hurl Hid].
  split; [by apply Hurl |]. intros Hsome. by apply Hid in Hsome.
Defined.

Lemma from_dict_unknown_key_witness :
  ~ exists b,
      Button_from_dict style_value emoji_of_json json_repr keyword_message
        missing_message
        [("type", JInt 2); ("style", JInt 1); ("label", JStr "Go");
         ("custom_id", JStr "go"); ("flags", JInt 0)]
      = Decoded b.
Proof.
  intros [b Hb]. revert b Hb.
  apply (from_dict_unknown_key style_value emoji_of_json json_repr
           keyword_message missing_message
           [("type", JInt 2); ("style", JInt 1); ("label", JStr "Go");
            ("custom_id", JStr "go"); ("flags", JInt 0)] "flags").
  - apply (bool_decide_unpack _). vm_compute. exact I.
  - apply (bool_decide_unpack _). vm_compute. exact I.
Defined.
